(** * Verification of the voice-input layer of agents-assemble

    Two functions of the repository are embedded here and their
    specification is checked against them:

    - [VoiceAgent.speech_to_text]  (backend/agents/voice_agent.py)
    - [LlmResponseHandling.clean_llm_json]
                                   (backend/utils/llm_response_handling.py)

    Python values are modelled as follows.  A [str] is a Rocq [string]
    whose characters are code points below 256; [bytes] is a list of
    bytes; a raised exception is a value [Raise e] of the [result] type;
    the external services (the file system, the speech recognizer, the
    JSON decoder) are parameters of the model. *)

From Stdlib Require Import String Ascii List ZArith Lia Bool Arith.
Import ListNotations.
Open Scope string_scope.

(* ================================================================= *)
(** ** Python runtime notions shared by both files *)

Module Py.

(** Exception classes that occur in the two files.  Every class here
    derives from [Exception]; interpreter signals that do not
    ([KeyboardInterrupt], [SystemExit]) are outside the model. *)
Inductive exn_class : Type :=
| OSError
| IndexError
| JSONDecodeError
| OtherError (name : string).

Record exn : Type := Exn { exn_cls : exn_class; exn_msg : string }.

(** Outcome of evaluating a Python expression or call. *)
Inductive result (A : Type) : Type :=
| Return (a : A)
| Raise (e : exn).
Arguments Return {A} a.
Arguments Raise {A} e.

Definition bytes := list Byte.byte.

Definition LF : ascii := "010"%char.

Definition quote : ascii := "034"%char.

(** [str.lower] on code points below 256: the ASCII capitals and the
    Latin-1 capitals (all of 0xC0..0xDE except the sign 0xD7) move up
    by 32, every other character is unchanged. *)
Definition lower_char (c : ascii) : ascii :=
  let n := nat_of_ascii c in
  if (((65 <=? n) && (n <=? 90))
      || ((192 <=? n) && (n <=? 222) && negb (n =? 215)))%nat
  then ascii_of_nat (n + 32) else c.

Fixpoint lower (s : string) : string :=
  match s with
  | EmptyString => EmptyString
  | String c s' => String (lower_char c) (lower s')
  end.

(** [str.rfind] for a one-character needle: the highest index at which
    the character occurs, or -1. *)
Fixpoint rfind_from (c : ascii) (s : string) (i acc : Z) : Z :=
  match s with
  | EmptyString => acc
  | String c' s' =>
      rfind_from c s' (i + 1) (if Ascii.eqb c c' then i else acc)
  end.

Definition rfind (c : ascii) (s : string) : Z := rfind_from c s 0 (-1).

(** The [while filenameIndex < dotIndex] loop of [genericpath._splitext];
    [n] counts the iterations that remain. *)
Fixpoint splitext_loop (p : string) (dotIndex filenameIndex n : nat)
  : option (string * string) :=
  match n with
  | O => None
  | S n' =>
      if negb (substring filenameIndex 1 p =? ".")
      then Some (substring 0 dotIndex p,
                 substring dotIndex (String.length p - dotIndex) p)
      else splitext_loop p dotIndex (S filenameIndex) n'
  end.

(** [os.path.splitext] of [posixpath]: separator "/", no alternative
    separator, extension separator ".". *)
Definition splitext (p : string) : string * string :=
  let sepIndex := rfind "/" p in
  let dotIndex := rfind "." p in
  if (sepIndex <? dotIndex)%Z then
    match splitext_loop p (Z.to_nat dotIndex) (Z.to_nat (sepIndex + 1))
                        (Z.to_nat (dotIndex - (sepIndex + 1))) with
    | Some r => r
    | None => (p, "")
    end
  else (p, "").

(** [sep.join(parts)]. *)
Definition join (sep : string) (parts : list string) : string :=
  String.concat sep parts.

End Py.

Import Py.

(* ================================================================= *)
(** ** The data model of google.cloud.speech that the agent uses *)

Module Speech.

(** The members of [RecognitionConfig.AudioEncoding] the agent names. *)
Inductive AudioEncoding : Type := LINEAR16 | OGG_OPUS | WEBM_OPUS | MP3.

(** A keyword argument that is not passed is [None]. *)
Record RecognitionConfig : Type := {
  encoding : AudioEncoding;
  sample_rate_hertz : option Z;
  language_code : string;
  enable_automatic_punctuation : bool;
  use_enhanced : bool;
  model : string;
  audio_channel_count : option Z
}.

Record SpeechRecognitionAlternative : Type := { transcript : string }.

Record SpeechRecognitionResult : Type := {
  alternatives : list SpeechRecognitionAlternative
}.

Record RecognizeResponse : Type := {
  results : list SpeechRecognitionResult
}.

Definition AudioEncoding_eqb (a b : AudioEncoding) : bool :=
  match a, b with
  | LINEAR16, LINEAR16 | OGG_OPUS, OGG_OPUS
  | WEBM_OPUS, WEBM_OPUS | MP3, MP3 => true
  | _, _ => false
  end.

End Speech.

Import Speech.

(* ================================================================= *)
(** ** backend/agents/voice_agent.py *)

Module VoiceAgent.

(** One call of [stt_client.recognize], as the call log keeps it. *)
Record call : Type := {
  call_config : RecognitionConfig;
  call_audio : bytes;
  call_outcome : result RecognizeResponse
}.

Section Agent.

(** The recognizer is an arbitrary stateful service: from its
    current state, a configuration and the audio it either returns a
    response or raises, and moves to a new state. *)
Variable St : Type.
Variable recognize :
  St -> RecognitionConfig -> bytes -> result RecognizeResponse * St.

(** What a call of [speech_to_text] can observe and change: the
    files, the recognizer, and (ghost) the calls made so far. *)
Record World : Type := {
  files : string -> option bytes;
  stt : St;
  calls : list call
}.

Definition M (A : Type) : Type := World -> result A * World.

Definition ret {A} (a : A) : M A := fun w => (Return a, w).

Definition raise {A} (e : exn) : M A := fun w => (Raise e, w).

Definition bind {A B} (m : M A) (k : A -> M B) : M B :=
  fun w =>
    match m w with
    | (Return a, w') => k a w'
    | (Raise e, w') => (Raise e, w')
    end.

(** [try: body  except Exception as e: handler e]. *)
Definition try_except {A} (body : M A) (handler : exn -> M A) : M A :=
  fun w =>
    match body w with
    | (Return a, w') => (Return a, w')
    | (Raise e, w') => handler e w'
    end.

Definition lift {A} (r : result A) : M A := fun w => (r, w).

Local Notation "x <- m ;; k" := (bind m (fun x => k))
  (at level 61, m at next level, right associativity).

(** [with open(path, "rb") as f: content = f.read()]. *)
Definition open_read (path : string) : M bytes :=
  fun w =>
    match files w path with
    | Some content => (Return content, w)
    | None => (Raise (Exn OSError path), w)
    end.

(** [self.stt_client.recognize(config=config, audio=audio)]. *)
Definition stt_recognize (config : RecognitionConfig) (audio : bytes)
  : M RecognizeResponse :=
  fun w =>
    let '(o, s') := recognize (stt w) config audio in
    (o, {| files := files w;
           stt := s';
           calls := calls w ++ [ {| call_config := config;
                                    call_audio := audio;
                                    call_outcome := o |} ] |}).

(** [result.alternatives[0]]. *)
Definition first_alternative (r : SpeechRecognitionResult)
  : result SpeechRecognitionAlternative :=
  match alternatives r with
  | a :: _ => Return a
  | [] => Raise (Exn IndexError "list index out of range")
  end.

(** The generator [result.alternatives[0].transcript for result in
    response.results], consumed from left to right. *)
Fixpoint first_transcripts (rs : list SpeechRecognitionResult)
  : result (list string) :=
  match rs with
  | [] => Return []
  | r :: rs' =>
      match first_alternative r with
      | Raise e => Raise e
      | Return a =>
          match first_transcripts rs' with
          | Raise e => Raise e
          | Return ts => Return (transcript a :: ts)
          end
      end
  end.

(** [" ".join(... for result in response.results)]. *)
Definition join_transcripts (response : RecognizeResponse)
  : result string :=
  match first_transcripts (results response) with
  | Return ts => Return (join " " ts)
  | Raise e => Raise e
  end.

(** Truth value of [response.results]. *)
Definition has_results (response : RecognizeResponse) : bool :=
  match results response with [] => false | _ :: _ => true end.

Definition webm_config : RecognitionConfig :=
  {| encoding := OGG_OPUS;
     sample_rate_hertz := Some 48000%Z;
     language_code := "en-US";
     enable_automatic_punctuation := true;
     use_enhanced := true;
     model := "latest_long";
     audio_channel_count := Some 1%Z |}.

Definition default_config : RecognitionConfig :=
  {| encoding := LINEAR16;
     sample_rate_hertz := None;
     language_code := "en-US";
     enable_automatic_punctuation := true;
     use_enhanced := true;
     model := "latest_long";
     audio_channel_count := None |}.

Definition alternative_config : RecognitionConfig :=
  {| encoding := WEBM_OPUS;
     sample_rate_hertz := Some 48000%Z;
     language_code := "en-US";
     enable_automatic_punctuation := true;
     use_enhanced := true;
     model := "latest_long";
     audio_channel_count := None |}.

Definition fallback_config (enc : AudioEncoding) (rate : Z)
  : RecognitionConfig :=
  {| encoding := enc;
     sample_rate_hertz := Some rate;
     language_code := "en-US";
     enable_automatic_punctuation := true;
     use_enhanced := true;
     model := "latest_long";
     audio_channel_count := None |}.

Definition encodings : list (AudioEncoding * string) :=
  [ (LINEAR16, "LINEAR16"); (OGG_OPUS, "OGG_OPUS");
    (WEBM_OPUS, "WEBM_OPUS"); (MP3, "MP3") ].

Definition common_rates : list Z := [48000; 44100; 16000; 8000]%Z.

Definition no_speech : string := "No speech detected in audio file".

Definition failed : string :=
  "Could not transcribe audio. Speech recognition failed.".

(** Configuration chosen from the lower-cased extension. *)
Definition primary_config (file_ext : string) : RecognitionConfig :=
  if file_ext =? ".webm" then webm_config else default_config.

(** The body of the outer [try]: the primary call and, when it
    returns no result, the WEBM_OPUS call. *)
Definition guarded_block (config : RecognitionConfig) (audio : bytes)
  : M string :=
  response <- stt_recognize config audio ;;
  if has_results response then
    transcript <- lift (join_transcripts response) ;;
    ret transcript
  else
    response <- stt_recognize alternative_config audio ;;
    if has_results response then
      transcript <- lift (join_transcripts response) ;;
      ret transcript
    else
      ret no_speech.

(** One pass of the body of [for rate in common_rates]: [Some t]
    when the body executes [return t], [None] when it falls through
    or its exception handler is taken. *)
Definition fallback_attempt (enc : AudioEncoding) (rate : Z)
           (audio : bytes) : M (option string) :=
  try_except
    (response <- stt_recognize (fallback_config enc rate) audio ;;
     if has_results response then
       transcript <- lift (join_transcripts response) ;;
       ret (Some transcript)
     else ret None)
    (fun inner_e => ret None).

(** [for rate in common_rates: ...]. *)
Fixpoint for_rate (enc : AudioEncoding) (rates : list Z) (audio : bytes)
  : M (option string) :=
  match rates with
  | [] => ret None
  | rate :: rates' =>
      r <- fallback_attempt enc rate audio ;;
      match r with
      | Some t => ret (Some t)
      | None => for_rate enc rates' audio
      end
  end.

(** [for encoding, encoding_name in encodings: ...]. *)
Fixpoint for_encoding (encs : list (AudioEncoding * string))
         (audio : bytes) : M (option string) :=
  match encs with
  | [] => ret None
  | (enc, encoding_name) :: encs' =>
      r <- for_rate enc common_rates audio ;;
      match r with
      | Some t => ret (Some t)
      | None => for_encoding encs' audio
      end
  end.

(** The two loops read as one loop over (encoding, rate) pairs; the
    nested loops are shown equal to it on [sweep_pairs]. *)
Fixpoint for_pair (pairs : list (AudioEncoding * Z)) (audio : bytes)
  : M (option string) :=
  match pairs with
  | [] => ret None
  | p :: pairs' =>
      r <- fallback_attempt (fst p) (snd p) audio ;;
      match r with
      | Some t => ret (Some t)
      | None => for_pair pairs' audio
      end
  end.

(** The handler of the outer [try]. *)
Definition fallback_sweep (audio : bytes) : M string :=
  r <- for_encoding encodings audio ;;
  match r with
  | Some t => ret t
  | None => ret failed
  end.

Definition speech_to_text (audio_file_path : string) : M string :=
  let file_ext := lower (snd (splitext audio_file_path)) in
  content <- open_read audio_file_path ;;
  let audio := content in
  let config := primary_config file_ext in
  try_except (guarded_block config audio)
             (fun e => fallback_sweep audio).

(** *** Vocabulary of the specification *)

(** The world after the calls [cs] were appended to the log and the
    recognizer moved to state [s]. *)
Definition after (w : World) (cs : list call) (s : St) : World :=
  {| files := files w; stt := s; calls := calls w ++ cs |}.

Definition mkcall (config : RecognitionConfig) (audio : bytes)
           (o : result RecognizeResponse) : call :=
  {| call_config := config; call_audio := audio; call_outcome := o |}.

(** The recognizer driven through [configs] in order, every one of
    them tried: the calls this makes and the state it ends in. *)
Fixpoint run_calls (configs : list RecognitionConfig) (audio : bytes)
         (s : St) : list call * St :=
  match configs with
  | [] => ([], s)
  | c :: cs =>
      let '(o, s') := recognize s c audio in
      let '(l, s'') := run_calls cs audio s' in
      (mkcall c audio o :: l, s'')
  end.

(** The (encoding, rate) pairs in the order the nested loops visit
    them, and their configurations. *)
Definition sweep_pairs : list (AudioEncoding * Z) :=
  flat_map (fun en => map (fun rate => (fst en, rate)) common_rates)
           encodings.

Definition sweep_configs : list RecognitionConfig :=
  map (fun p => fallback_config (fst p) (snd p)) sweep_pairs.

(** A segment in the sense of the specification carries at least one
    alternative. *)
Definition well_formed (response : RecognizeResponse) : Prop :=
  Forall (fun r => alternatives r <> []) (results response).

(** The attempt raised, or returned zero segments. *)
Definition no_segments (o : result RecognizeResponse) : Prop :=
  match o with
  | Raise _ => True
  | Return r => results r = []
  end.

(** The transcript a sweep attempt with outcome [o] hands back, if
    any. *)
Definition attempt_transcript (o : result RecognizeResponse)
  : option string :=
  match o with
  | Raise _ => None
  | Return r =>
      if has_results r then
        match join_transcripts r with
        | Return t => Some t
        | Raise _ => None
        end
      else None
  end.

(** First-alternative text of a segment (the empty text stands in
    for a segment without alternatives). *)
Definition first_text (r : SpeechRecognitionResult) : string :=
  match alternatives r with
  | a :: _ => transcript a
  | [] => ""
  end.

(** [t] is the joined transcript of the response that the last call of
    [cs] returned, and that response has at least one segment. *)
Definition transcript_of_last (cs : list call) (t : string) : Prop :=
  exists cs' c r,
    cs = (cs' ++ [c])%list /\ call_outcome c = Return r /\
    results r <> [] /\ join_transcripts r = Return t.

(** The last call of [cs] returned a response without segments. *)
Definition silent_last (cs : list call) : Prop :=
  exists cs' c r,
    cs = (cs' ++ [c])%list /\ call_outcome c = Return r /\ results r = [].

(** The last call of [cs] handed back no transcript. *)
Definition failed_last (cs : list call) : Prop :=
  exists cs' c,
    cs = (cs' ++ [c])%list /\ attempt_transcript (call_outcome c) = None.

(** A deterministic stub: what a call returns depends on the
    configuration and the audio only. *)
Definition deterministic : Prop :=
  forall s s' config audio,
    fst (recognize s config audio) = fst (recognize s' config audio).

End Agent.

Arguments files {St} _ _.
Arguments stt {St} _.
Arguments calls {St} _.
Arguments Build_World {St} _ _ _.

(** *** Recognizer stubs used in the examples *)

Definition segment (t : string) : SpeechRecognitionResult :=
  {| alternatives := [ {| transcript := t |} ] |}.

Definition response_of (ts : list string) : RecognizeResponse :=
  {| results := map segment ts |}.

Definition boom : exn := Exn (OtherError "ServiceUnavailable") "503".

Definition config_is (enc : AudioEncoding) (rate : option Z)
           (c : RecognitionConfig) : bool :=
  AudioEncoding_eqb (encoding c) enc
  && match sample_rate_hertz c, rate with
     | Some a, Some b => (a =? b)%Z
     | None, None => true
     | _, _ => false
     end.

(** Stateless stub given by a table from configurations to outcomes. *)
Definition table_stub (f : RecognitionConfig -> result RecognizeResponse)
  : unit -> RecognitionConfig -> bytes -> result RecognizeResponse * unit :=
  fun _ c _ => (f c, tt).

(** Scripted stub: the state is the list of outcomes still to be
    played, one per call whatever the configuration; once the script
    is over every call raises. *)
Definition script_stub
  : list (result RecognizeResponse) -> RecognitionConfig -> bytes ->
    result RecognizeResponse * list (result RecognizeResponse) :=
  fun script _ _ =>
    match script with
    | o :: rest => (o, rest)
    | [] => (Raise boom, [])
    end.

(** Raises on the primary configuration, and returns a transcript for
    (OGG_OPUS, 44100) only. *)
Definition ogg_44100_stub :=
  table_stub (fun c =>
    if config_is OGG_OPUS (Some 44100%Z) c
    then Return (response_of ["hello"; "world"])
    else if config_is LINEAR16 None c then Raise boom
    else Return (response_of [])).

(** Returns no segment on the primary configuration and raises on
    every other one. *)
Definition silent_then_raising_stub :=
  table_stub (fun c =>
    if config_is LINEAR16 None c then Return (response_of [])
    else Raise boom).

(** Every call raises. *)
Definition raising_stub := table_stub (fun _ => Raise boom).

(** Every call returns zero segments, except WEBM_OPUS at 48000. *)
Definition webm_only_stub :=
  table_stub (fun c =>
    if config_is WEBM_OPUS (Some 48000%Z) c
    then Return (response_of ["good"; "morning"])
    else Return (response_of [])).

(** Every call returns zero segments. *)
Definition silent_stub := table_stub (fun _ => Return (response_of [])).

Definition audio0 : bytes := [Byte.x52; Byte.x49; Byte.x46; Byte.x46].

(** A file system in which every path but "missing.wav" holds
    [audio0]. *)
Definition files0 (path : string) : option bytes :=
  if path =? "missing.wav" then None else Some audio0.

Definition world0 {St} (s : St) : World St :=
  {| files := files0; stt := s; calls := [] |}.

End VoiceAgent.

(* ================================================================= *)
(** ** The fragment of Python's [re] that llm_response_handling.py uses *)

Module Re.

(** Patterns are written with [re.DOTALL], so [Any] matches every
    character including the newline.  [Group n r] is the [n]-th
    capturing group; a non-capturing group [(?:...)] leaves no node. *)
Inductive regex : Type :=
| Eps
| Chr (c : ascii)
| Any
| Space
| Cat (r1 r2 : regex)
| Alt (r1 r2 : regex)
| Opt (r : regex)
| Star (r : regex)
| LazyStar (r : regex)
| Group (n : nat) (r : regex).

(** [str.isspace] and the class [\s], on code points below 256. *)
Definition isspace (c : ascii) : bool :=
  let n := nat_of_ascii c in
  (((9 <=? n) && (n <=? 13)) || ((28 <=? n) && (n <=? 32))
   || (n =? 133) || (n =? 160))%nat.

Definition groups : Type := list (nat * string).

Fixpoint group (n : nat) (gs : groups) : string :=
  match gs with
  | [] => ""
  | (m, s) :: gs' => if (n =? m)%nat then s else group n gs'
  end.

Definition set_group (n : nat) (s : string) (gs : groups) : groups :=
  (n, s) :: gs.

(** Continuation of a match: the text still to be read and the groups
    captured so far. *)
Definition cont : Type := string -> groups -> option (string * groups).

(** Two continuations that answer alike. *)
Definition agree (k1 k2 : cont) : Prop :=
  forall s gs, k1 s gs = k2 s gs.

Definition matcher : Type :=
  string -> groups -> cont -> option (string * groups).

(** [r*]: as many iterations of [body] as possible, giving them back one
    by one while what follows fails.  An iteration has to consume a
    character; [fuel] bounds the number of iterations and the length of
    the text is enough. *)
Fixpoint star_loop (body : matcher) (k : cont) (fuel : nat)
         (s : string) (gs : groups) : option (string * groups) :=
  match fuel with
  | O => k s gs
  | S fuel' =>
      match body s gs
              (fun s' gs' =>
                 if (String.length s' <? String.length s)%nat
                 then star_loop body k fuel' s' gs' else None) with
      | Some m => Some m
      | None => k s gs
      end
  end.

(** [r*?]: as few iterations of [body] as possible. *)
Fixpoint lazy_loop (body : matcher) (k : cont) (fuel : nat)
         (s : string) (gs : groups) : option (string * groups) :=
  match k s gs with
  | Some m => Some m
  | None =>
      match fuel with
      | O => None
      | S fuel' =>
          body s gs
            (fun s' gs' =>
               if (String.length s' <? String.length s)%nat
               then lazy_loop body k fuel' s' gs' else None)
      end
  end.

(** The backtracking matcher: alternatives are tried from left to right,
    [Opt] and [Star] take as much as they can before giving back,
    [LazyStar] as little. *)
Fixpoint exec (r : regex) (s : string) (gs : groups) (k : cont) {struct r}
  : option (string * groups) :=
  match r with
  | Eps => k s gs
  | Chr c =>
      match s with
      | String c' s' => if Ascii.eqb c c' then k s' gs else None
      | EmptyString => None
      end
  | Any =>
      match s with
      | String _ s' => k s' gs
      | EmptyString => None
      end
  | Space =>
      match s with
      | String c' s' => if isspace c' then k s' gs else None
      | EmptyString => None
      end
  | Cat r1 r2 => exec r1 s gs (fun s' gs' => exec r2 s' gs' k)
  | Alt r1 r2 =>
      match exec r1 s gs k with
      | Some m => Some m
      | None => exec r2 s gs k
      end
  | Opt r1 =>
      match exec r1 s gs k with
      | Some m => Some m
      | None => k s gs
      end
  | Star r1 => star_loop (exec r1) k (String.length s) s gs
  | LazyStar r1 => lazy_loop (exec r1) k (String.length s) s gs
  | Group n r1 =>
      exec r1 s gs
        (fun s' gs' =>
           k s' (set_group n
                   (substring 0 (String.length s - String.length s') s) gs'))
  end.

(** The least number of characters a match of [r] consumes. *)
Fixpoint min_len (r : regex) : nat :=
  match r with
  | Eps => 0
  | Chr _ | Any | Space => 1
  | Cat r1 r2 => min_len r1 + min_len r2
  | Alt r1 r2 => Nat.min (min_len r1) (min_len r2)
  | Opt _ | Star _ | LazyStar _ => 0
  | Group _ r1 => min_len r1
  end.

(** A match anchored at the start of [s]: what is left of [s] after it,
    and its groups. *)
Definition match_at (r : regex) (s : string) : option (string * groups) :=
  exec r s [] (fun s' gs => Some (s', gs)).

(** [re.search]: the groups of the leftmost match. *)
Fixpoint search (r : regex) (s : string) : option groups :=
  match match_at r s with
  | Some (_, gs) => Some gs
  | None =>
      match s with
      | EmptyString => None
      | String _ s' => search r s'
      end
  end.

(** A replacement template such as [r'\1']. *)
Inductive template_item : Type :=
| Literal (s : string)
| Backref (n : nat).

Fixpoint expand (t : list template_item) (gs : groups) : string :=
  match t with
  | [] => ""
  | Literal s :: t' => s ++ expand t' gs
  | Backref n :: t' => group n gs ++ expand t' gs
  end.

(** [re.sub]: matches are found from left to right, do not overlap, and
    each is replaced by the expanded template.  A match that consumes
    nothing is passed over; the pattern of this repository cannot match
    the empty text. *)
Fixpoint sub_loop (r : regex) (repl : list template_item) (fuel : nat)
         (s : string) : string :=
  match fuel with
  | O => s
  | S fuel' =>
      let skip :=
        match s with
        | EmptyString => EmptyString
        | String c s' => String c (sub_loop r repl fuel' s')
        end in
      match match_at r s with
      | Some (rest, gs) =>
          if (String.length rest <? String.length s)%nat
          then expand repl gs ++ sub_loop r repl fuel' rest
          else skip
      | None => skip
      end
  end.

Definition sub (r : regex) (repl : list template_item) (s : string)
  : string :=
  sub_loop r repl (S (String.length s)) s.

(** The literal text [s] as a pattern. *)
Fixpoint lit (s : string) : regex :=
  match s with
  | EmptyString => Eps
  | String c s' => Cat (Chr c) (lit s')
  end.

(** [str.strip()]. *)
Fixpoint lstrip (s : string) : string :=
  match s with
  | EmptyString => EmptyString
  | String c s' => if isspace c then lstrip s' else s
  end.

Fixpoint rstrip (s : string) : string :=
  match s with
  | EmptyString => EmptyString
  | String c s' =>
      match rstrip s' with
      | EmptyString => if isspace c then EmptyString else String c EmptyString
      | t => String c t
      end
  end.

Definition strip (s : string) : string := rstrip (lstrip s).

End Re.

(* ================================================================= *)
(** ** backend/utils/llm_response_handling.py *)

Module LlmResponseHandling.

Import Re.

Definition backtick : ascii := "096"%char.

Definition fence : string :=
  String backtick (String backtick (String backtick "")).

(** [```(?:json|javascript)?\s*\n?(.*?)\n?```] *)
Definition code_block_pattern : regex :=
  Cat (lit fence)
 (Cat (Opt (Alt (lit "json") (lit "javascript")))
 (Cat (Star Space)
 (Cat (Opt (Chr LF))
 (Cat (Group 1 (LazyStar Any))
 (Cat (Opt (Chr LF))
      (lit fence)))))).

(** [(\{.*\}|\[.*\])] *)
Definition json_structure_pattern : regex :=
  Group 1 (Alt (Cat (Chr "{") (Cat (Star Any) (Chr "}")))
               (Cat (Chr "[") (Cat (Star Any) (Chr "]")))).

(** The argument of [clean_llm_json]: None, a string, an object with a
    [text] attribute, an object with a [content] attribute but no [text],
    or any other object, given by its [str()].  An object comes with its
    truth value ([bool(response)]: false for an empty list or
    dictionary, for 0, ...); the attributes are taken to hold strings. *)
Inductive response : Type :=
| PyNone
| PyStr (s : string)
| WithText (truth : bool) (text : string)
| WithContent (truth : bool) (content : string)
| OtherObject (truth : bool) (str : string).

(** [not response]. *)
Definition falsy (r : response) : bool :=
  match r with
  | PyNone => true
  | PyStr s => (String.length s =? 0)%nat
  | WithText truth _ => negb truth
  | WithContent truth _ => negb truth
  | OtherObject truth _ => negb truth
  end.

Definition is_JSONDecodeError (e : exn) : bool :=
  match exn_cls e with
  | JSONDecodeError => true
  | _ => false
  end.

Section Clean.

(** The JSON decoder is a parameter: [json_loads s] returns the decoded
    value or raises.  [none] is Python's [None] among the values (what
    the decoder returns for the JSON text null). *)
Variable value : Type.
Variable none : value.
Variable json_loads : string -> result value.

Definition clean_llm_json (response : response) : result value :=
  if falsy response then Return none
  else
    let text :=
      match response with
      | WithText _ t => t
      | WithContent _ c => c
      | PyStr s => s
      | OtherObject _ s => s
      | PyNone => ""
      end in
    let cleaned := sub code_block_pattern [Backref 1] text in
    let cleaned := strip cleaned in
    match json_loads cleaned with
    | Return v => Return v
    | Raise e =>
        if is_JSONDecodeError e then
          match search json_structure_pattern text with
          | Some json_match =>
              match json_loads (group 1 json_match) with
              | Return v => Return v
              | Raise e' =>
                  if is_JSONDecodeError e' then Return none else Raise e'
              end
          | None => Return none
          end
        else Raise e
    end.

End Clean.

(** *** Vocabulary of the specification *)

(** [s] cut after the last occurrence of [c]: the part up to and
    including it, and the rest. *)
Fixpoint split_last (c : ascii) (s : string) : option (string * string) :=
  match s with
  | EmptyString => None
  | String d s' =>
      match split_last c s' with
      | Some (p, rest) => Some (String d p, rest)
      | None => if Ascii.eqb c d then Some (String d EmptyString, s') else None
      end
  end.

(** What may follow an opening character [d] at the head of a
    structure: up to the last "}" after "{", up to the last "]" after
    "[". *)
Definition structure_tail (d : ascii) (s' : string) : option string :=
  if Ascii.eqb d "{" then option_map fst (split_last "}" s')
  else if Ascii.eqb d "[" then option_map fst (split_last "]" s')
  else None.

(** The brace- or bracket-delimited substring that the fallback takes:
    it starts at the first "{" that has a "}" after it, or "[" that has
    a "]" after it, whichever comes first, and runs to the last such
    closing character of the text. *)
Fixpoint find_structure (s : string) : option string :=
  match s with
  | EmptyString => None
  | String d s' =>
      match structure_tail d s' with
      | Some p => Some (String d p)
      | None => find_structure s'
      end
  end.

(** Every character of [s] is whitespace. *)
Fixpoint all_space (s : string) : bool :=
  match s with
  | EmptyString => true
  | String c s' => isspace c && all_space s'
  end.

(** [c] occurs in [s]. *)
Fixpoint contains (c : ascii) (s : string) : bool :=
  match s with
  | EmptyString => false
  | String d s' => Ascii.eqb c d || contains c s'
  end.

(** [s] without its last character when that is a newline. *)
Fixpoint chomp (s : string) : string :=
  match s with
  | EmptyString => EmptyString
  | String c s' =>
      match s' with
      | EmptyString => if Ascii.eqb c LF then EmptyString else s
      | String _ _ => String c (chomp s')
      end
  end.

(** The text opens with "{" or "[" and does not end with whitespace,
    as the text of a JSON object or array does. *)
Definition structure_text (body : string) : Prop :=
  (exists rest, body = String "{" rest \/ body = String "[" rest) /\
  rstrip body = body.

(** The language tags the code-block pattern knows. *)
Definition known_tag (lang : string) : Prop :=
  lang = "" \/ lang = "json" \/ lang = "javascript".


(** *** Texts used in the examples *)

(** [s] between double quotes. *)
Definition quoted (s : string) : string :=
  String quote (s ++ String quote EmptyString).

(** [s] inside a markdown code block with language tag [lang]. *)
Definition fenced (lang s : string) : string :=
  fence ++ lang ++ String LF (s ++ String LF fence).



(** The JSON text of an array holding the one string [```a```]. *)
Definition backticked_array : string :=
  "[" ++ quoted (fence ++ "a" ++ fence) ++ "]".

(** The JSON text of an object whose field holds a code block, the
    newlines written as the escape [\n]:
    [{"answer": "```python\nprint(1)\n```"}]. *)
Definition answer_with_code : string :=
  "{" ++ quoted "answer" ++ ": "
      ++ quoted (fence ++ "python\nprint(1)\n" ++ fence) ++ "}".

End LlmResponseHandling.

(* ================================================================= *)
(** ** A reference model of [json.loads]

    The theorems about [clean_llm_json] hold for every decoder; this one
    follows Python's decoder (whitespace, literals including NaN and the
    infinities, numbers, strict strings with escapes and surrogate pairs,
    arrays, objects as dictionaries) and is used to run examples.  A
    decoded string is a list of code points; a float keeps its literal.
    An integer literal beyond the interpreter's digit limit is refused
    with [ValueError], as [int] does.  The [RecursionError] that deep
    nesting ends in is not modelled: where it sets in depends on the
    stack in use at the call. *)

Module Json.

#[local] Set Warnings "-register-all".

Inductive value : Type :=
| JNull
| JBool (b : bool)
| JInt (n : Z)
| JFloat (literal : string)
| JString (s : list N)
| JArray (items : list value)
| JObject (members : list (list N * value)).

Definition JSONError (msg : string) : exn := Exn JSONDecodeError msg.

Definition ValueError (msg : string) : exn :=
  Exn (OtherError "ValueError") msg.

(** [sys.get_int_max_str_digits()] as the interpreter starts (CPython
    3.11 and later): [int] refuses a literal with more decimal digits,
    the sign not counted. *)
Definition int_max_str_digits : nat := 4300.

(** What scanning at a position gives: a value and the rest of the
    text; no value (the decoder then raises [JSONDecodeError]); or the
    exception raised while a literal was converted. *)
Inductive scanned : Type :=
| Scanned (v : value) (rest : string)
| Malformed
| Refused (e : exn).

Definition is_ws (c : ascii) : bool :=
  let n := nat_of_ascii c in
  ((n =? 32) || (n =? 9) || (n =? 10) || (n =? 13))%nat.

Fixpoint skip_ws (s : string) : string :=
  match s with
  | String c s' => if is_ws c then skip_ws s' else s
  | EmptyString => EmptyString
  end.

Definition is_digit (c : ascii) : bool :=
  let n := nat_of_ascii c in ((48 <=? n) && (n <=? 57))%nat.

Definition hex_value (c : ascii) : option N :=
  let n := N_of_ascii c in
  if ((48 <=? n) && (n <=? 57))%N then Some (n - 48)%N
  else if ((97 <=? n) && (n <=? 102))%N then Some (n - 87)%N
  else if ((65 <=? n) && (n <=? 70))%N then Some (n - 55)%N
  else None.

(** Four hexadecimal digits, as after [\u]. *)
Definition decode_uXXXX (s : string) : option (N * string) :=
  match s with
  | String a (String b (String c (String d rest))) =>
      match hex_value a, hex_value b, hex_value c, hex_value d with
      | Some x, Some y, Some z, Some t =>
          Some ((((x * 16 + y) * 16 + z) * 16 + t)%N, rest)
      | _, _, _, _ => None
      end
  | _ => None
  end.

Definition simple_escape (c : ascii) : option N :=
  let n := N_of_ascii c in
  if (n =? 34)%N then Some 34%N            (* quote *)
  else if (n =? 92)%N then Some 92%N       (* backslash *)
  else if (n =? 47)%N then Some 47%N       (* solidus *)
  else if (n =? 98)%N then Some 8%N        (* b *)
  else if (n =? 102)%N then Some 12%N      (* f *)
  else if (n =? 110)%N then Some 10%N      (* n *)
  else if (n =? 114)%N then Some 13%N      (* r *)
  else if (n =? 116)%N then Some 9%N       (* t *)
  else None.

Definition cons_char (c : N) (r : option (list N * string))
  : option (list N * string) :=
  match r with
  | Some (cs, rest) => Some (c :: cs, rest)
  | None => None
  end.

(** The text of a string after its opening quote (strict mode). *)
Fixpoint scanstring (fuel : nat) (s : string) : option (list N * string) :=
  match fuel with
  | O => None
  | S fuel' =>
      match s with
      | EmptyString => None
      | String c s' =>
          let n := N_of_ascii c in
          if (n =? 34)%N then Some ([], s')
          else if (n =? 92)%N then
            match s' with
            | EmptyString => None
            | String e s'' =>
                if (N_of_ascii e =? 117)%N then
                  match decode_uXXXX s'' with
                  | None => None
                  | Some (uni, rest) =>
                      if ((55296 <=? uni) && (uni <=? 56319))%N then
                        match rest with
                        | String b (String u rest2) =>
                            if ((N_of_ascii b =? 92)
                                && (N_of_ascii u =? 117))%N then
                              match decode_uXXXX rest2 with
                              | None => None
                              | Some (uni2, rest3) =>
                                  if ((56320 <=? uni2) && (uni2 <=? 57343))%N
                                  then cons_char
                                         (65536 + ((uni - 55296) * 1024
                                                   + (uni2 - 56320)))%N
                                         (scanstring fuel' rest3)
                                  else cons_char uni (scanstring fuel' rest)
                              end
                            else cons_char uni (scanstring fuel' rest)
                        | _ => cons_char uni (scanstring fuel' rest)
                        end
                      else cons_char uni (scanstring fuel' rest)
                  end
                else
                  match simple_escape e with
                  | Some ch => cons_char ch (scanstring fuel' s'')
                  | None => None
                  end
            end
          else if (n <? 32)%N then None
          else cons_char n (scanstring fuel' s')
      end
  end.

(** The longest run of digits at the start of [s]. *)
Fixpoint digits (s : string) : string * string :=
  match s with
  | String c s' =>
      if is_digit c then let '(d, rest) := digits s' in (String c d, rest)
      else (EmptyString, s)
  | EmptyString => (EmptyString, EmptyString)
  end.

Fixpoint digits_value (acc : Z) (d : string) : Z :=
  match d with
  | String c d' => digits_value (acc * 10 + Z.of_nat (nat_of_ascii c) - 48) d'
  | EmptyString => acc
  end.

(** The number at the start of [s]: an optional minus sign, then 0 or a
    run of digits that does not start with 0, then optionally a point
    with at least one digit, then optionally an exponent (e or E, an
    optional sign, at least one digit).  Without fraction and exponent
    it is an integer, converted by [int], otherwise a float. *)
Definition match_number (s : string) : scanned :=
  let '(neg, s1) :=
    match s with
    | String "-" s' => (true, s')
    | _ => (false, s)
    end in
  let int_part :=
    match s1 with
    | String "0" s' => Some ("0", s')
    | String c _ =>
        if is_digit c then Some (digits s1) else None
    | EmptyString => None
    end in
  match int_part with
  | None => Malformed
  | Some (i, s2) =>
      let '(frac, s3) :=
        match s2 with
        | String "." s' =>
            match digits s' with
            | (EmptyString, _) => (EmptyString, s2)
            | (d, rest) => (String "." d, rest)
            end
        | _ => (EmptyString, s2)
        end in
      let '(exp, s4) :=
        match s3 with
        | String e s' =>
            if (Ascii.eqb e "e" || Ascii.eqb e "E")%bool then
              let '(sign, s'') :=
                match s' with
                | String "-" t => ("-", t)
                | String "+" t => ("+", t)
                | _ => (EmptyString, s')
                end in
              match digits s'' with
              | (EmptyString, _) => (EmptyString, s3)
              | (d, rest) => (String e (sign ++ d), rest)
              end
            else (EmptyString, s3)
        | EmptyString => (EmptyString, s3)
        end in
      let sign := if neg then "-" else "" in
      match frac, exp with
      | EmptyString, EmptyString =>
          if (int_max_str_digits <? String.length i)%nat then
            Refused (ValueError
                       "Exceeds the limit (4300 digits) for integer string conversion")
          else
            Scanned (JInt (if neg then - digits_value 0 i
                           else digits_value 0 i)) s4
      | _, _ => Scanned (JFloat (sign ++ i ++ frac ++ exp)) s4
      end
  end.

(** [s] without the prefix [p], when it starts with it. *)
Fixpoint strip_prefix (p s : string) : option string :=
  match p, s with
  | EmptyString, _ => Some s
  | String a p', String b s' =>
      if Ascii.eqb a b then strip_prefix p' s' else None
  | _, EmptyString => None
  end.

(** [d[key] = v] on a dictionary kept in insertion order. *)
Fixpoint dict_set (key : list N) (v : value)
         (members : list (list N * value)) : list (list N * value) :=
  match members with
  | [] => [(key, v)]
  | (k, v') :: rest =>
      if list_eq_dec N.eq_dec k key then (k, v) :: rest
      else (k, v') :: dict_set key v rest
  end.

(** The items of an array, from the first item on. *)
Fixpoint array_items (scan : string -> scanned)
         (fuel : nat) (s : string) (acc : list value) : scanned :=
  match fuel with
  | O => Malformed
  | S fuel' =>
      match scan s with
      | Malformed => Malformed
      | Refused e => Refused e
      | Scanned v s1 =>
          match skip_ws s1 with
          | String "]" s2 => Scanned (JArray (acc ++ [v])) s2
          | String "," s2 =>
              array_items scan fuel' (skip_ws s2) (acc ++ [v])
          | _ => Malformed
          end
      end
  end.

(** The members of an object, from the quote of the first key on. *)
Fixpoint object_members (scan : string -> scanned)
         (fuel : nat) (s : string) (acc : list (list N * value)) : scanned :=
  match fuel with
  | O => Malformed
  | S fuel' =>
      match s with
      | String q s1 =>
          if Ascii.eqb q quote then
            match scanstring (String.length s1) s1 with
            | None => Malformed
            | Some (key, s2) =>
                match skip_ws s2 with
                | String ":" s3 =>
                    match scan (skip_ws s3) with
                    | Malformed => Malformed
                    | Refused e => Refused e
                    | Scanned v s4 =>
                        let acc' := dict_set key v acc in
                        match skip_ws s4 with
                        | String "}" s5 => Scanned (JObject acc') s5
                        | String "," s5 =>
                            object_members scan fuel' (skip_ws s5) acc'
                        | _ => Malformed
                        end
                    end
                | _ => Malformed
                end
            end
          else Malformed
      | EmptyString => Malformed
      end
  end.

(** One value at the start of [s]; [fuel] bounds the nesting depth. *)
Fixpoint scan_once (fuel : nat) (s : string) : scanned :=
  match fuel with
  | O => Malformed
  | S fuel' =>
      match s with
      | EmptyString => Malformed
      | String c s' =>
          if Ascii.eqb c quote then
            match scanstring (String.length s') s' with
            | Some (u, rest) => Scanned (JString u) rest
            | None => Malformed
            end
          else if Ascii.eqb c "{" then
            match skip_ws s' with
            | String "}" rest => Scanned (JObject []) rest
            | s1 => object_members (scan_once fuel') (String.length s1) s1 []
            end
          else if Ascii.eqb c "[" then
            match skip_ws s' with
            | String "]" rest => Scanned (JArray []) rest
            | s1 => array_items (scan_once fuel') (String.length s1) s1 []
            end
          else
            match strip_prefix "null" s, strip_prefix "true" s,
                  strip_prefix "false" s with
            | Some rest, _, _ => Scanned JNull rest
            | _, Some rest, _ => Scanned (JBool true) rest
            | _, _, Some rest => Scanned (JBool false) rest
            | None, None, None =>
                match match_number s with
                | Scanned v rest => Scanned v rest
                | Refused e => Refused e
                | Malformed =>
                    match strip_prefix "NaN" s, strip_prefix "Infinity" s,
                          strip_prefix "-Infinity" s with
                    | Some rest, _, _ => Scanned (JFloat "NaN") rest
                    | _, Some rest, _ => Scanned (JFloat "Infinity") rest
                    | _, _, Some rest => Scanned (JFloat "-Infinity") rest
                    | None, None, None => Malformed
                    end
                end
            end
      end
  end.

Definition json_loads (s : string) : result value :=
  match scan_once (S (String.length s)) (skip_ws s) with
  | Malformed => Raise (JSONError "Expecting value")
  | Refused e => Raise e
  | Scanned v rest =>
      match skip_ws rest with
      | EmptyString => Return v
      | _ => Raise (JSONError "Extra data")
      end
  end.

(** The code points of a literal. *)
Definition codes (s : string) : list N :=
  map N_of_ascii (list_ascii_of_string s).

End Json.

(* ================================================================= *)
(** ** Further vocabulary for [speech_to_text] *)

Module VoiceAgentMore.

Import VoiceAgent.

(** An outcome the agent cannot turn into a transcript: the call
    raised, or returned zero segments, or returned a segment that has
    no alternative (on which [alternatives[0]] raises). *)
Definition unusable (o : result RecognizeResponse) : Prop :=
  match o with
  | Raise _ => True
  | Return r => results r = [] \/ ~ well_formed r
  end.

(** The options every configuration of the agent sets alike. *)
Definition common_options (c : RecognitionConfig) : Prop :=
  language_code c = "en-US" /\
  enable_automatic_punctuation c = true /\
  use_enhanced c = true /\
  model c = "latest_long".

(** A response whose second segment has no alternative. *)
Definition broken_response : RecognizeResponse :=
  {| results := [ segment "lost"; {| alternatives := [] |} ] |}.

End VoiceAgentMore.

(* ================================================================= *)
(** ** backend/agents/voice_agent.py: [VoiceAgent.process] *)

Module VoiceAgentProcess.

Import VoiceAgent.

(** [input_data.get(key)] for the keys [process] reads: a string, or
    None when the key is missing or holds None. *)
Definition InputData : Type := string -> option string.

(** Truth value of an optional string. *)
Definition truthy (v : option string) : bool :=
  match v with
  | Some s => negb (s =? "")
  | None => false
  end.

(** [a or b]. *)
Definition py_or (a b : option string) : option string :=
  if truthy a then a else b.

(** [v == literal]. *)
Definition is_str (v : option string) (literal : string) : bool :=
  match v with
  | Some s => s =? literal
  | None => false
  end.

(** The string held by a value known to be truthy. *)
Definition str_of (v : option string) : string :=
  match v with
  | Some s => s
  | None => ""
  end.

Section Process.

Variable St : Type.
Variable recognize :
  St -> RecognitionConfig -> bytes -> result RecognizeResponse * St.

(** [BaseAgent] is not among these sources: the type of the responses
    it builds and its methods [_create_response(data, status=...)]
    (status [None] when the argument is left out) and [_handle_error]
    are parameters.  So is [text_to_speech], which [process] calls and
    this file does not define. *)
Variable Response : Type.
Variable _create_response : list (string * string) -> option string -> Response.
Variable _handle_error : exn -> Response.
Variable text_to_speech : string -> M St string.

(** [os.path.exists] and [os.path.getsize]. *)
Variable path_exists : string -> bool.
Variable getsize : string -> result Z.

Local Notation "x <- m ;; k" := (bind St m (fun x => k))
  (at level 61, m at next level, right associativity).

Definition process (input_data : InputData) : M St Response :=
  try_except St
    (let mode := input_data "action" in
     if is_str mode "transcribe" then
       let audio_file_path :=
         py_or (input_data "audio_file_path") (input_data "audio_data") in
       if negb (truthy audio_file_path) then
         ret St (_create_response [("error", "Missing audio file path")]
                                  (Some "error"))
       else
         let audio_file_path := str_of audio_file_path in
         if negb (path_exists audio_file_path) then
           ret St (_create_response
                     [("error", "Audio file not found: " ++ audio_file_path)]
                     (Some "error"))
         else
           file_size <- lift St (getsize audio_file_path) ;;
           transcript <- speech_to_text St recognize audio_file_path ;;
           ret St (_create_response [("transcript", transcript)] None)
     else if is_str mode "text-to-speech" then
       let text := input_data "text" in
       if negb (truthy text) then
         ret St (_create_response [("error", "Missing text")] (Some "error"))
       else
         output_file_path <- text_to_speech (str_of text) ;;
         ret St (_create_response [("output_file", output_file_path)] None)
     else
       ret St (_create_response [("error", "Invalid mode")] (Some "error")))
    (fun e => ret St (_handle_error e)).

End Process.

(** *** Parameters used in the examples *)

(** A response as a pair of data and status. *)
Definition plain_response : Type := list (string * string) * option string.

Definition error_response (e : exn) : plain_response :=
  ([("error", exn_msg e)], Some "error").

(** No [text_to_speech] method: the call raises. *)
Definition no_text_to_speech {St} (text : string) : M St string :=
  raise St (Exn (OtherError "AttributeError") "text_to_speech").

(** Every path but "missing.wav" exists; "folder" exists too, though it
    cannot be opened as a file. *)
Definition exists0 (path : string) : bool := negb (path =? "missing.wav").

Definition getsize0 (path : string) : result Z := Return 4%Z.

Definition files1 (path : string) : option bytes :=
  if path =? "folder" then None else files0 path.

Definition world1 {St} (s : St) : World St :=
  {| files := files1; stt := s; calls := [] |}.

(** A request to transcribe [path]. *)
Definition transcribe_request (path : string) : InputData :=
  fun key =>
    if key =? "action" then Some "transcribe"
    else if key =? "audio_data" then Some path
    else None.

End VoiceAgentProcess.

(* ================================================================= *)
(** ** backend/api/routes/voice_routes.py *)

Module VoiceRoutes.

#[local] Set Warnings "-register-all".

(** Python values as the routes handle them: None, booleans, integers,
    strings, lists, and dictionaries with string keys kept in insertion
    order.  (Floats and other objects are left out.) *)
Inductive pyval : Type :=
| PNone
| PBool (b : bool)
| PInt (n : Z)
| PStr (s : string)
| PList (items : list pyval)
| PDict (members : list (string * pyval)).

(** Truth value. *)
Definition truth (v : pyval) : bool :=
  match v with
  | PNone => false
  | PBool b => b
  | PInt n => negb (n =? 0)%Z
  | PStr s => negb (s =? "")
  | PList l => negb (Nat.eqb (length l) 0)
  | PDict d => negb (Nat.eqb (length d) 0)
  end.

Fixpoint lookup (key : string) (d : list (string * pyval)) : option pyval :=
  match d with
  | [] => None
  | (k, v) :: d' => if k =? key then Some v else lookup key d'
  end.

Definition AttributeError (attr : string) : exn :=
  Exn (OtherError "AttributeError") attr.

Definition TypeError (msg : string) : exn := Exn (OtherError "TypeError") msg.

Definition UnboundLocalError (name : string) : exn :=
  Exn (OtherError "UnboundLocalError") name.

Definition ValidationError (msg : string) : exn :=
  Exn (OtherError "ValidationError") msg.

(** [v.get(key, default)]: only a dictionary has the method. *)
Definition get (v : pyval) (key : string) (default : pyval) : result pyval :=
  match v with
  | PDict d =>
      match lookup key d with
      | Some x => Return x
      | None => Return default
      end
  | _ => Raise (AttributeError "get")
  end.

(** [v[:50]], as evaluated inside a log message: strings and lists can
    be sliced, the other values raise. *)
Definition slice50 (v : pyval) : result pyval :=
  match v with
  | PStr s => Return (PStr (substring 0 50 s))
  | PList l => Return (PList (firstn 50 l))
  | _ => Raise (TypeError "not subscriptable")
  end.

(** [posixpath.join(a, b)]. *)
Definition starts_with_sep (s : string) : bool :=
  match s with
  | String c _ => Ascii.eqb c "/"
  | EmptyString => false
  end.

Fixpoint ends_with_sep (s : string) : bool :=
  match s with
  | EmptyString => false
  | String c EmptyString => Ascii.eqb c "/"
  | String _ s' => ends_with_sep s'
  end.

Definition path_join (a b : string) : string :=
  if starts_with_sep b then b
  else if ((a =? "") || ends_with_sep a)%bool then a ++ b
  else a ++ "/" ++ b.

Definition UPLOAD_FOLDER : string := "uploads".

(** An uploaded file: its name as the client sent it, and what
    [await file.read()] gives. *)
Record UploadFile : Type := {
  filename : option string;
  read : result bytes
}.

(** [JSONResponse(content, status_code)]. *)
Record JSONResponse : Type := {
  status_code : Z;
  content : list (string * pyval)
}.

(** The pydantic model of the file.  All five fields are required. *)
Definition VoiceProcessResponse_fields : list string :=
  ["success"; "result"; "timestamp"; "processing_time_ms"; "request_id"].

(** [VoiceProcessResponse] called with keyword arguments: a required field that is missing
    makes validation fail; keyword arguments that are no field are
    ignored.  (Coercion of the values that are present is not
    modelled.) *)
Definition VoiceProcessResponse (kwargs : list (string * pyval))
  : result (list (string * pyval)) :=
  if forallb (fun f => match lookup f kwargs with
                       | Some _ => true
                       | None => false
                       end) VoiceProcessResponse_fields
  then Return (filter (fun kv => existsb (String.eqb (fst kv))
                                         VoiceProcessResponse_fields) kwargs)
  else Raise (ValidationError "field required").

(** What an endpoint hands back to the framework. *)
Inductive answer : Type :=
| Json (r : JSONResponse)
| Model (fields : list (string * pyval)).

Section Routes.

(** The input processor is not among these sources: it is a stateful
    service that, given the request dictionary, returns a value or
    raises, and may change the files. *)
Variable PSt : Type.
Variable process_request :
  pyval -> PSt -> (string -> option bytes) ->
  result pyval * PSt * (string -> option bytes).

(** The server: the files, which paths can be opened for writing, the
    processor, and the background tasks added ([os.remove] of a
    path). *)
Record Server : Type := {
  disk : string -> option bytes;
  can_create : string -> bool;
  processor : PSt;
  tasks : list string
}.

Definition R (A : Type) : Type := Server -> result A * Server.

Definition ret {A} (a : A) : R A := fun sv => (Return a, sv).

Definition raise {A} (e : exn) : R A := fun sv => (Raise e, sv).

Definition lift {A} (r : result A) : R A := fun sv => (r, sv).

Definition bind {A B} (m : R A) (k : A -> R B) : R B :=
  fun sv =>
    match m sv with
    | (Return a, sv') => k a sv'
    | (Raise e, sv') => (Raise e, sv')
    end.

Definition try_except {A} (body : R A) (handler : exn -> R A) : R A :=
  fun sv =>
    match body sv with
    | (Return a, sv') => (Return a, sv')
    | (Raise e, sv') => handler e sv'
    end.

Local Notation "x <- m ;; k" := (bind m (fun x => k))
  (at level 61, m at next level, right associativity).

Definition write_disk (path : string) (data : bytes)
           (d : string -> option bytes) : string -> option bytes :=
  fun p => if p =? path then Some data else d p.

(** [open(path, "wb")]: the file is created or emptied.  On failure
    the class of the exception is modelled; its message stands for the
    text of the system's error. *)
Definition open_wb (path : string) : R unit :=
  fun sv =>
    if can_create sv path then
      (Return tt, {| disk := write_disk path [] (disk sv);
                     can_create := can_create sv;
                     processor := processor sv;
                     tasks := tasks sv |})
    else (Raise (Exn OSError path), sv).

(** [f.write(data)] on the file opened at [path].  (A device that runs
    out of space is not modelled.) *)
Definition write (path : string) (data : bytes) : R unit :=
  fun sv =>
    (Return tt, {| disk := write_disk path data (disk sv);
                   can_create := can_create sv;
                   processor := processor sv;
                   tasks := tasks sv |}).

(** [os.path.exists]. *)
Definition path_exists (path : string) : R bool :=
  fun sv => (Return (match disk sv path with
                     | Some _ => true
                     | None => false
                     end), sv).

(** [background_tasks.add_task(os.remove, path)]. *)
Definition add_remove_task (path : string) : R unit :=
  fun sv =>
    (Return tt, {| disk := disk sv;
                   can_create := can_create sv;
                   processor := processor sv;
                   tasks := tasks sv ++ [path] |}).

(** [await processor.process_request(request_dict)]. *)
Definition call_processor (request_dict : pyval) : R pyval :=
  fun sv =>
    let '(r, ps, d) := process_request request_dict (processor sv) (disk sv) in
    (r, {| disk := d;
           can_create := can_create sv;
           processor := ps;
           tasks := tasks sv |}).

(** [os.path.splitext(file.filename)[1]]. *)
Definition extension_of (name : option string) : result string :=
  match name with
  | Some n => Return (snd (splitext n))
  | None => Raise (TypeError "expected str, bytes or os.PathLike object, not NoneType")
  end.

(** [upload_audio]; [stamp] is
    [datetime.now().strftime('%Y%m%d_%H%M%S')]. *)
Definition upload_audio (stamp : string) (file : option UploadFile)
  : R JSONResponse :=
  try_except
    (match file with
     | Some file =>
         ext <- lift (extension_of (filename file)) ;;
         let filename := "audio_" ++ stamp ++ ext in
         let filepath := path_join UPLOAD_FOLDER filename in
         _ <- open_wb filepath ;;
         data <- lift (read file) ;;
         _ <- write filepath data ;;
         ret {| status_code := 200;
                content := [("message", PStr "File saved");
                            ("path", PStr filepath)] |}
     | None =>
         ret {| status_code := 400;
                content := [("error", PStr "No audio found in request")] |}
     end)
    (fun e =>
       ret {| status_code := 500; content := [("error", PStr (exn_msg e))] |}).

(** What the clock and the random source give one request:
    [str(uuid.uuid4())], [datetime.now().isoformat()], the elapsed
    milliseconds as an integer and the elapsed seconds (opaque). *)
Record Ambient : Type := {
  request_id : string;
  now_isoformat : string;
  elapsed_ms : Z;
  elapsed_seconds : pyval
}.

Definition temp_file_path (request_id : string) : string :=
  "uploads/temp_audio_" ++ request_id ++ ".webm".

(** [timestamp or datetime.now().isoformat()]. *)
Definition timestamp_or_now (timestamp : option string) (now : string)
  : string :=
  match timestamp with
  | Some t => if t =? "" then now else t
  | None => now
  end.

(** Lines 96-139: the part of [process_voice_input] after the
    processor returned [result]; the local [response_data] is bound
    only when [result] is truthy. *)
Definition shape_response (amb : Ambient) (browser_transcript : string)
           (result_ : pyval) : R answer :=
  if truth result_ then
    success <- lift (get result_ "success" (PBool true)) ;;
    if negb (truth success) then
      error <- lift (get result_ "error" (PStr "Unknown error")) ;;
      ret (Json {| status_code := 500;
                   content := [("success", PBool false);
                               ("error", error);
                               ("request_id", PStr (request_id amb))] |})
    else
      r1 <- lift (get result_ "result" (PDict [])) ;;
      r2 <- lift (get r1 "final_response" (PDict [])) ;;
      response_data <- lift (get r2 "response_text" (PStr "")) ;;
      text <- lift (get result_ "text" (PStr "")) ;;
      let transcribed_text :=
        if truth text then text else PStr browser_transcript in
      _ <- lift (slice50 transcribed_text) ;;
      ret (Json {| status_code := 200;
                   content := [("success", PBool true);
                               ("result", response_data);
                               ("transcribed_text", transcribed_text);
                               ("processing_time_ms", PInt (elapsed_ms amb));
                               ("request_id", PStr (request_id amb))] |})
  else
    let transcribed_text := PStr browser_transcript in
    _ <- lift (slice50 transcribed_text) ;;
    raise (UnboundLocalError "response_data").

(** Lines 60-73: the uploaded audio, if there is one, is read and
    written to a temporary file; [audio_data] is its path, or None. *)
Definition store_audio (amb : Ambient) (audio : option UploadFile)
  : R (option string) :=
  match audio with
  | Some audio =>
      audio_content <- lift (read audio) ;;
      let temp_file_path := temp_file_path (request_id amb) in
      _ <- open_wb temp_file_path ;;
      _ <- write temp_file_path audio_content ;;
      ret (Some temp_file_path)
  | None => ret None
  end.

(** Lines 76-86. *)
Definition request_dict (amb : Ambient)
           (browser_transcript user_id : string) (timestamp : option string)
           (input_method browser_preview : string)
           (audio_data : option string) : pyval :=
  PDict [("text", PStr "");
         ("audio_data", match audio_data with
                        | Some path => PStr path
                        | None => PNone
                        end);
         ("browser_transcript", PStr browser_transcript);
         ("user_id", PStr user_id);
         ("timestamp", PStr (timestamp_or_now timestamp (now_isoformat amb)));
         ("input_method", PStr input_method);
         ("browser_preview", PBool (lower browser_preview =? "true"));
         ("request_id", PStr (request_id amb));
         ("explicit_complete_memory", PBool true)].

(** Lines 92-93: [if audio_data and os.path.exists(audio_data)]. *)
Definition schedule_cleanup (audio_data : option string) : R unit :=
  match audio_data with
  | Some path =>
      there <- path_exists path ;;
      if there : bool then add_remove_task path else ret tt
  | None => ret tt
  end.

Definition process_voice_input (amb : Ambient)
           (browser_transcript user_id : string) (timestamp : option string)
           (input_method browser_preview : string)
           (audio : option UploadFile) : R answer :=
  try_except
    (audio_data <- store_audio amb audio ;;
     let request_dict :=
       request_dict amb browser_transcript user_id timestamp input_method
                    browser_preview audio_data in
     result_ <- call_processor request_dict ;;
     _ <- schedule_cleanup audio_data ;;
     shape_response amb browser_transcript result_)
    (fun e =>
       fields <- lift (VoiceProcessResponse
                         [("success", PBool false);
                          ("error", PStr (exn_msg e));
                          ("request_id", PStr (request_id amb));
                          ("processing_time", elapsed_seconds amb)]) ;;
       ret (Model fields)).

End Routes.

Arguments disk {PSt} _ _.
Arguments can_create {PSt} _ _.
Arguments processor {PSt} _.
Arguments tasks {PSt} _.

(** *** Vocabulary of the properties *)

(** No character of [s] is "/" or ".": as in a time stamp made of
    digits and "_", and in the text of a UUID. *)
Definition plain_name (s : string) : Prop :=
  forall c, c = "/"%char \/ c = "."%char ->
            LlmResponseHandling.contains c s = false.

(** The processor returns [res] whatever it is asked. *)
Definition answers {PSt : Type}
           (process_request :
              pyval -> PSt -> (string -> option bytes) ->
              result pyval * PSt * (string -> option bytes))
           (res : pyval) : Prop :=
  forall req ps d, fst (fst (process_request req ps d)) = Return res.

(** The uploaded audio, if there is one, can be read and its temporary
    file can be opened. *)
Definition storable {PSt : Type} (amb : Ambient)
           (audio : option UploadFile) (sv : Server PSt) : Prop :=
  match audio with
  | None => True
  | Some f =>
      (exists data, read f = Return data)
      /\ can_create sv (temp_file_path (request_id amb)) = true
  end.

(** Anything but a dictionary with at least one member. *)
Definition not_a_filled_dict (v : pyval) : Prop :=
  match v with
  | PDict (_ :: _) => False
  | _ => True
  end.

(** A processor for the examples: it returns [res] and leaves
    everything as it is. *)
Definition constant_processor (res : result pyval)
  : pyval -> unit -> (string -> option bytes) ->
    result pyval * unit * (string -> option bytes) :=
  fun _ ps d => (res, ps, d).

Definition server0 : Server unit :=
  {| disk := fun _ => None;
     can_create := fun _ => true;
     processor := tt;
     tasks := [] |}.

Definition ambient0 : Ambient :=
  {| request_id := "0f8fad5b-d9cb-469f-a165-70867728950e";
     now_isoformat := "2025-01-01T00:00:00";
     elapsed_ms := 12;
     elapsed_seconds := PNone |}.

(** Two uploads for the examples: one that can be read, one whose
    reading fails. *)
Definition recording : UploadFile :=
  {| filename := Some "note.WebM"; read := Return VoiceAgent.audio0 |}.

Definition broken_upload : UploadFile :=
  {| filename := Some "note.WebM";
     read := Raise (Exn (OtherError "ClientDisconnect") "client went away") |}.

(** Results of the processor for the examples. *)
Definition failed_result : pyval :=
  PDict [("success", PBool false); ("error", PStr "no agent available")].

Definition silent_result : pyval :=
  PDict [("success", PBool true);
         ("text", PStr "");
         ("result",
          PDict [("final_response",
                  PDict [("response_text", PStr "Noted.")])])].

End VoiceRoutes.

(* ================================================================= *)
(** * Properties of [speech_to_text] *)

Module VoiceAgentSpec.

Import VoiceAgent.

Section Proofs.

Variable St : Type.
Variable recognize :
  St -> RecognitionConfig -> bytes -> result RecognizeResponse * St.

Local Abbreviation World := (World St).
Local Abbreviation after := (@after St).
Local Abbreviation stt_recognize := (stt_recognize St recognize).
Local Abbreviation fallback_attempt := (fallback_attempt St recognize).
Local Abbreviation for_rate := (for_rate St recognize).
Local Abbreviation for_encoding := (for_encoding St recognize).
Local Abbreviation for_pair := (for_pair St recognize).
Local Abbreviation fallback_sweep := (fallback_sweep St recognize).
Local Abbreviation guarded_block := (guarded_block St recognize).
Local Abbreviation speech_to_text := (speech_to_text St recognize).
Local Abbreviation run_calls := (run_calls St recognize).
Local Abbreviation deterministic := (deterministic St recognize).

(** **** The world only grows *)

Lemma after_nil (w : World) : after w [] (stt w) = w.
Proof. destruct w; unfold after; simpl; now rewrite app_nil_r. Qed.

Lemma after_after (w : World) l1 s1 l2 s2 :
  after (after w l1 s1) l2 s2 = after w (l1 ++ l2) s2.
Proof. unfold after; simpl; now rewrite app_assoc. Qed.

Lemma stt_recognize_eq config audio (w : World) o s' :
  recognize (stt w) config audio = (o, s') ->
  stt_recognize config audio w
  = (o, after w [mkcall config audio o] s').
Proof.
  intros H. unfold VoiceAgent.stt_recognize. now rewrite H.
Qed.

(** **** One sweep attempt *)

Lemma fallback_attempt_eq enc rate audio (w : World) o s' :
  recognize (stt w) (fallback_config enc rate) audio = (o, s') ->
  fallback_attempt enc rate audio w
  = (Return (attempt_transcript o),
     after w [mkcall (fallback_config enc rate) audio o] s').
Proof.
  intros H.
  unfold VoiceAgent.fallback_attempt, try_except, bind.
  rewrite (stt_recognize_eq _ _ _ _ _ H).
  destruct o as [r|e]; simpl; [|reflexivity].
  destruct (has_results r); simpl; [|reflexivity].
  unfold lift, bind, ret.
  destruct (join_transcripts r); reflexivity.
Qed.

(** **** The nested loops visit [sweep_pairs] in order *)

Lemma for_rate_for_pair enc rates rest audio (w : World) :
  bind St (for_rate enc rates audio)
       (fun r => match r with
                 | Some t => ret St (Some t)
                 | None => for_pair rest audio
                 end) w
  = for_pair (map (fun rate => (enc, rate)) rates ++ rest) audio w.
Proof.
  revert w; induction rates as [|rate rates IH]; intros w.
  - reflexivity.
  - simpl. unfold bind at 1 2 3.
    destruct (recognize (stt w) (fallback_config enc rate) audio)
      as [o s'] eqn:E.
    rewrite (fallback_attempt_eq _ _ _ _ _ _ E).
    destruct (attempt_transcript o) as [t|]; [reflexivity|].
    apply IH.
Qed.

Lemma for_encoding_for_pair encs audio (w : World) :
  for_encoding encs audio w
  = for_pair
      (flat_map (fun en => map (fun rate => (fst en, rate)) common_rates)
                encs) audio w.
Proof.
  revert w; induction encs as [|[enc name] encs IH]; intros w.
  - reflexivity.
  - cbn [VoiceAgent.for_encoding flat_map fst].
    rewrite <- for_rate_for_pair.
    unfold bind.
    destruct (for_rate enc common_rates audio w) as [[[t|]|e] w'];
      try reflexivity.
    apply IH.
Qed.

(** **** The sweep against the unrolled run of the recognizer *)

Local Abbreviation configs_of pairs :=
  (map (fun p : AudioEncoding * Z => fallback_config (fst p) (snd p)) pairs).

Lemma run_calls_cons c cs audio s o s' :
  recognize s c audio = (o, s') ->
  run_calls (c :: cs) audio s
  = (mkcall c audio o :: fst (run_calls cs audio s'),
     snd (run_calls cs audio s')).
Proof.
  intros H. simpl. rewrite H. now destruct (run_calls cs audio s').
Qed.

Lemma run_calls_length cs audio s :
  length (fst (run_calls cs audio s)) = length cs.
Proof.
  revert s; induction cs as [|c cs IH]; intros s; [reflexivity|].
  destruct (recognize s c audio) as [o s'] eqn:E.
  rewrite (run_calls_cons _ _ _ _ _ _ E). simpl. now rewrite IH.
Qed.

Lemma run_calls_configs cs audio s :
  map call_config (fst (run_calls cs audio s)) = cs.
Proof.
  revert s; induction cs as [|c cs IH]; intros s; [reflexivity|].
  destruct (recognize s c audio) as [o s'] eqn:E.
  rewrite (run_calls_cons _ _ _ _ _ _ E). simpl. now rewrite IH.
Qed.

Lemma for_pair_exhausted pairs audio (w : World) :
  (forall c, In c (fst (run_calls (configs_of pairs) audio (stt w))) ->
             attempt_transcript (call_outcome c) = None) ->
  for_pair pairs audio w
  = (Return None,
     after w (fst (run_calls (configs_of pairs) audio (stt w)))
             (snd (run_calls (configs_of pairs) audio (stt w)))).
Proof.
  revert w; induction pairs as [|[enc rate] pairs IH]; intros w H.
  - simpl. unfold ret. now rewrite after_nil.
  - cbn [map fst snd] in *.
    destruct (recognize (stt w) (fallback_config enc rate) audio)
      as [o s'] eqn:E.
    rewrite (run_calls_cons _ _ _ _ _ _ E) in *. cbn [fst snd] in *.
    cbn [VoiceAgent.for_pair fst snd]. unfold bind.
    rewrite (fallback_attempt_eq _ _ _ _ _ _ E).
    pose proof (H _ (or_introl eq_refl)) as H0. simpl in H0. rewrite H0.
    rewrite (IH (after w _ s')).
    + now rewrite after_after.
    + intros c Hc. apply H. now right.
Qed.

Lemma for_pair_first pairs audio (w : World) k c t :
  nth_error (fst (run_calls (configs_of pairs) audio (stt w))) k = Some c ->
  attempt_transcript (call_outcome c) = Some t ->
  (forall i c', i < k ->
     nth_error (fst (run_calls (configs_of pairs) audio (stt w))) i
     = Some c' ->
     attempt_transcript (call_outcome c') = None) ->
  for_pair pairs audio w
  = (Return (Some t),
     after w (firstn (S k)
                (fst (run_calls (configs_of pairs) audio (stt w))))
             (snd (run_calls (firstn (S k) (configs_of pairs)) audio
                             (stt w)))).
Proof.
  revert w k; induction pairs as [|[enc rate] pairs IH]; intros w k Hk Ht Hlt.
  - destruct k; discriminate.
  - cbn [map fst snd] in *.
    destruct (recognize (stt w) (fallback_config enc rate) audio)
      as [o s'] eqn:E.
    rewrite (run_calls_cons _ _ _ _ _ _ E) in *. cbn [fst snd] in *.
    cbn [VoiceAgent.for_pair fst snd]. unfold bind.
    rewrite (fallback_attempt_eq _ _ _ _ _ _ E).
    destruct k as [|k].
    + simpl in Hk. injection Hk as <-. simpl in Ht. rewrite Ht.
      unfold ret. simpl. now rewrite E.
    + pose proof (Hlt 0 _ (Nat.lt_0_succ k) eq_refl) as H0.
      simpl in H0. rewrite H0.
      simpl in Hk.
      rewrite (IH (after w _ s') k Hk Ht).
      * rewrite after_after.
        change (firstn (S (S k)) (fallback_config enc rate :: configs_of pairs))
          with (fallback_config enc rate :: firstn (S k) (configs_of pairs)).
        rewrite (run_calls_cons _ _ _ _ _ _ E). reflexivity.
      * intros i c' Hi Hc'. apply (Hlt (S i) c'); [lia|exact Hc'].
Qed.

(** **** What an attempt hands back *)

Lemma has_results_true r : has_results r = true <-> results r <> [].
Proof.
  unfold has_results. destruct (results r); split; intros H;
    congruence.
Qed.

Lemma has_results_false r : has_results r = false <-> results r = [].
Proof.
  unfold has_results. destruct (results r); split; intros H;
    congruence.
Qed.

Lemma attempt_transcript_some o t :
  attempt_transcript o = Some t <->
  exists r, o = Return r /\ results r <> [] /\ join_transcripts r = Return t.
Proof.
  split.
  - destruct o as [r|e]; simpl; [|discriminate].
    destruct (has_results r) eqn:Hr; [|discriminate].
    destruct (join_transcripts r) as [t'|e] eqn:Hj; [|discriminate].
    intros [= <-]. exists r. repeat split; trivial.
    now apply has_results_true.
  - intros (r & -> & Hr & Hj). simpl.
    apply has_results_true in Hr. now rewrite Hr, Hj.
Qed.

Lemma no_segments_no_transcript o :
  no_segments o -> attempt_transcript o = None.
Proof.
  destruct o as [r|e]; simpl; [|reflexivity].
  intros Hr. apply has_results_false in Hr. now rewrite Hr.
Qed.

(** **** The join *)

Lemma first_transcripts_well_formed rs :
  Forall (fun r => alternatives r <> []) rs ->
  first_transcripts rs = Return (map first_text rs).
Proof.
  induction 1 as [|r rs Hr _ IH]; [reflexivity|].
  simpl. unfold first_alternative, first_text.
  destruct (alternatives r) as [|a l]; [contradiction|].
  now rewrite IH.
Qed.

Lemma first_transcripts_return rs ts :
  first_transcripts rs = Return ts ->
  Forall (fun r => alternatives r <> []) rs /\ ts = map first_text rs.
Proof.
  revert ts; induction rs as [|r rs IH]; intros ts; simpl.
  - intros [= <-]. now split.
  - unfold first_alternative, first_text.
    destruct (alternatives r) as [|a l] eqn:Ha; [discriminate|].
    destruct (first_transcripts rs) as [ts'|e]; [|discriminate].
    intros [= <-]. destruct (IH ts' eq_refl) as [Hwf ->].
    split; [|reflexivity].
    constructor; [now rewrite Ha|exact Hwf].
Qed.

Lemma join_transcripts_well_formed r :
  well_formed r ->
  join_transcripts r = Return (join " " (map first_text (results r))).
Proof.
  intros H. unfold join_transcripts.
  now rewrite (first_transcripts_well_formed _ H).
Qed.

Lemma join_transcripts_return r t :
  join_transcripts r = Return t <->
  well_formed r /\ t = join " " (map first_text (results r)).
Proof.
  split.
  - unfold join_transcripts.
    destruct (first_transcripts (results r)) as [ts|e] eqn:E; [|discriminate].
    intros [= <-]. destruct (first_transcripts_return _ _ E) as [Hwf ->].
    now split.
  - intros [Hwf ->]. now apply join_transcripts_well_formed.
Qed.

(** **** The guarded block and the handler, case by case *)

Lemma lift_ret {A} (r : result A) (w : World) :
  bind St (lift St r) (fun t => ret St t) w = (r, w).
Proof. unfold bind, lift, ret. now destruct r. Qed.

Lemma guarded_block_cases config audio (w : World) o1 s1 o2 s2 :
  recognize (stt w) config audio = (o1, s1) ->
  recognize s1 alternative_config audio = (o2, s2) ->
  let c1 := mkcall config audio o1 in
  let c2 := mkcall alternative_config audio o2 in
  guarded_block config audio w
  = match o1 with
    | Raise e => (Raise e, after w [c1] s1)
    | Return r1 =>
        if has_results r1 then (join_transcripts r1, after w [c1] s1)
        else match o2 with
             | Raise e => (Raise e, after w [c1; c2] s2)
             | Return r2 =>
                 if has_results r2
                 then (join_transcripts r2, after w [c1; c2] s2)
                 else (Return no_speech, after w [c1; c2] s2)
             end
    end.
Proof.
  intros E1 E2 c1 c2. unfold VoiceAgent.guarded_block.
  unfold bind at 1. rewrite (stt_recognize_eq _ _ _ _ _ E1).
  destruct o1 as [r1|e]; [|reflexivity].
  destruct (has_results r1); [apply lift_ret|].
  unfold bind at 1.
  rewrite (stt_recognize_eq _ _ (after w _ s1) o2 s2 E2), after_after.
  destruct o2 as [r2|e]; [|reflexivity].
  destruct (has_results r2); [apply lift_ret|reflexivity].
Qed.

Lemma fallback_sweep_eq audio (w : World) :
  fallback_sweep audio w
  = match for_pair sweep_pairs audio w with
    | (Return (Some t), w') => (Return t, w')
    | (Return None, w') => (Return failed, w')
    | (Raise e, w') => (Raise e, w')
    end.
Proof.
  unfold VoiceAgent.fallback_sweep, bind.
  rewrite for_encoding_for_pair. fold sweep_pairs.
  destruct (for_pair sweep_pairs audio w) as [[[t|]|e] w']; reflexivity.
Qed.

Lemma speech_to_text_eq path (w : World) content :
  files w path = Some content ->
  speech_to_text path w
  = match guarded_block (primary_config (lower (snd (splitext path))))
                        content w with
    | (Return t, w') => (Return t, w')
    | (Raise e, w') => fallback_sweep content w'
    end.
Proof.
  intros H. unfold VoiceAgent.speech_to_text, bind, open_read, try_except.
  now rewrite H.
Qed.

Lemma speech_to_text_missing path (w : World) :
  files w path = None ->
  speech_to_text path w = (Raise (Exn OSError path), w).
Proof.
  intros H. unfold VoiceAgent.speech_to_text, bind, open_read.
  now rewrite H.
Qed.

(** **** Every run ends in a returned string *)

Lemma silent_last_app cs1 cs2 :
  silent_last cs2 -> silent_last (cs1 ++ cs2).
Proof.
  intros (cs' & c & r & -> & H). exists (cs1 ++ cs')%list, c, r.
  now rewrite app_assoc.
Qed.

Lemma failed_last_app cs1 cs2 :
  failed_last cs2 -> failed_last (cs1 ++ cs2).
Proof.
  intros (cs' & c & -> & H). exists (cs1 ++ cs')%list, c.
  now rewrite app_assoc.
Qed.

Lemma transcript_of_last_app cs1 cs2 t :
  transcript_of_last cs2 t -> transcript_of_last (cs1 ++ cs2) t.
Proof.
  intros (cs' & c & r & -> & H). exists (cs1 ++ cs')%list, c, r.
  now rewrite app_assoc.
Qed.

Lemma for_pair_outcome pairs audio (w : World) :
  exists o cs s,
    for_pair pairs audio w = (Return o, after w cs s) /\
    match o with
    | None => length cs = length pairs /\
              Forall (fun c => attempt_transcript (call_outcome c) = None) cs
    | Some t => transcript_of_last cs t
    end.
Proof.
  revert w; induction pairs as [|[enc rate] pairs IH]; intros w.
  - exists None, [], (stt w). simpl. unfold ret. now rewrite after_nil.
  - cbn [VoiceAgent.for_pair fst snd]. unfold bind.
    destruct (recognize (stt w) (fallback_config enc rate) audio)
      as [o s'] eqn:E.
    rewrite (fallback_attempt_eq _ _ _ _ _ _ E).
    destruct (attempt_transcript o) as [t|] eqn:Ht.
    + exists (Some t), [mkcall (fallback_config enc rate) audio o], s'.
      split; [reflexivity|].
      apply attempt_transcript_some in Ht. destruct Ht as (r & -> & Hr & Hj).
      now exists [], (mkcall (fallback_config enc rate) audio (Return r)), r.
    + destruct (IH (after w [mkcall (fallback_config enc rate) audio o] s'))
        as (o' & cs & s & Heq & Ho').
      exists o', (mkcall (fallback_config enc rate) audio o :: cs), s.
      rewrite Heq, after_after. split; [reflexivity|].
      destruct o' as [t|].
      * now apply (transcript_of_last_app [_]).
      * destruct Ho' as [Hlen Hall]. split; [simpl; now rewrite Hlen|].
        now constructor.
Qed.

Lemma fallback_sweep_outcome audio (w : World) :
  exists t cs s,
    fallback_sweep audio w = (Return t, after w cs s) /\
    ((t = failed /\ failed_last cs) \/ transcript_of_last cs t).
Proof.
  rewrite fallback_sweep_eq.
  destruct (for_pair_outcome sweep_pairs audio w) as (o & cs & s & -> & Ho).
  destruct o as [t|].
  - exists t, cs, s. now split; [|right].
  - exists failed, cs, s. split; [reflexivity|left]. split; [reflexivity|].
    destruct Ho as [Hlen Hall].
    destruct (exists_last (l := cs)) as (cs' & c & ->).
    { intros ->. discriminate Hlen. }
    exists cs', c. split; [reflexivity|].
    apply Forall_app in Hall. destruct Hall as [_ Hc].
    now inversion Hc.
Qed.

Lemma guarded_block_outcome config audio (w : World) :
  exists o cs s,
    guarded_block config audio w = (o, after w (mkcall config audio
       (fst (recognize (stt w) config audio)) :: cs) s) /\
    match o with
    | Return t =>
        (t = no_speech /\
         silent_last
           (mkcall config audio (fst (recognize (stt w) config audio)) :: cs))
        \/
        transcript_of_last
          (mkcall config audio (fst (recognize (stt w) config audio)) :: cs) t
    | Raise _ => True
    end.
Proof.
  destruct (recognize (stt w) config audio) as [o1 s1] eqn:E1.
  destruct (recognize s1 alternative_config audio) as [o2 s2] eqn:E2.
  rewrite (guarded_block_cases _ _ _ _ _ _ _ E1 E2). cbn [fst].
  destruct o1 as [r1|e].
  - destruct (has_results r1) eqn:H1.
    + exists (join_transcripts r1), [], s1. split; [reflexivity|].
      destruct (join_transcripts r1) as [t|e] eqn:Hj; [|exact I].
      right. exists [], (mkcall config audio (Return r1)), r1.
      repeat split; trivial. now apply has_results_true.
    + destruct o2 as [r2|e].
      * destruct (has_results r2) eqn:H2.
        -- exists (join_transcripts r2),
             [mkcall alternative_config audio (Return r2)], s2.
           split; [reflexivity|].
           destruct (join_transcripts r2) as [t|e] eqn:Hj; [|exact I].
           right. exists [mkcall config audio (Return r1)],
             (mkcall alternative_config audio (Return r2)), r2.
           repeat split; trivial. now apply has_results_true.
        -- exists (Return no_speech),
             [mkcall alternative_config audio (Return r2)], s2.
           split; [reflexivity|left]. split; [reflexivity|].
           exists [mkcall config audio (Return r1)],
             (mkcall alternative_config audio (Return r2)), r2.
           repeat split. now apply has_results_false.
      * exists (Raise e), [mkcall alternative_config audio (Raise e)], s2.
        now split.
  - exists (Raise e), [], s1. now split.
Qed.

Lemma speech_to_text_outcome path (w : World) content :
  files w path = Some content ->
  exists t cs s,
    speech_to_text path w
    = (Return t,
       after w (mkcall (primary_config (lower (snd (splitext path)))) content
                  (fst (recognize (stt w)
                          (primary_config (lower (snd (splitext path))))
                          content)) :: cs) s) /\
    ((t = failed /\ failed_last (calls (snd (speech_to_text path w)))) \/
     (t = no_speech /\ silent_last (calls (snd (speech_to_text path w)))) \/
     transcript_of_last (calls (snd (speech_to_text path w))) t).
Proof.
  intros Hf. rewrite (speech_to_text_eq _ _ _ Hf).
  destruct (guarded_block_outcome
              (primary_config (lower (snd (splitext path)))) content w)
    as (o & cs & s & -> & Ho).
  destruct o as [t|e].
  - exists t, cs, s. split; [reflexivity|].
    cbn [snd calls VoiceAgent.after].
    destruct Ho as [[-> Ho]|Ho].
    + right; left. split; [reflexivity|]. now apply silent_last_app.
    + right; right. now apply transcript_of_last_app.
  - match goal with
    | |- context [fallback_sweep content (after w ?l s)] =>
        destruct (fallback_sweep_outcome content (after w l s))
          as (t & cs2 & s2 & -> & Ht)
    end.
    exists t, (cs ++ cs2)%list, s2. rewrite after_after.
    split; [reflexivity|].
    cbn [snd calls VoiceAgent.after]. rewrite app_assoc.
    destruct Ht as [[-> Ht]|Ht].
    + left. split; [reflexivity|]. now apply failed_last_app.
    + right; right. now apply transcript_of_last_app.
Qed.

Lemma speech_to_text_cases path (w : World) content o1 s1 o2 s2 :
  files w path = Some content ->
  let config := primary_config (lower (snd (splitext path))) in
  recognize (stt w) config content = (o1, s1) ->
  recognize s1 alternative_config content = (o2, s2) ->
  let w1 := after w [mkcall config content o1] s1 in
  let w2 := after w [mkcall config content o1;
                     mkcall alternative_config content o2] s2 in
  speech_to_text path w
  = match o1 with
    | Raise _ => fallback_sweep content w1
    | Return r1 =>
        if has_results r1 then
          match join_transcripts r1 with
          | Return t => (Return t, w1)
          | Raise _ => fallback_sweep content w1
          end
        else
          match o2 with
          | Raise _ => fallback_sweep content w2
          | Return r2 =>
              if has_results r2 then
                match join_transcripts r2 with
                | Return t => (Return t, w2)
                | Raise _ => fallback_sweep content w2
                end
              else (Return no_speech, w2)
          end
    end.
Proof.
  intros Hf config E1 E2 w1 w2.
  rewrite (speech_to_text_eq _ _ _ Hf). fold config.
  rewrite (guarded_block_cases _ _ _ _ _ _ _ E1 E2).
  destruct o1 as [r1|e]; [|reflexivity].
  destruct (has_results r1).
  - now destruct (join_transcripts r1).
  - destruct o2 as [r2|e]; [|reflexivity].
    destruct (has_results r2); [|reflexivity].
    now destruct (join_transcripts r2).
Qed.

Lemma primary_config_webm ext :
  lower ext = ".webm" -> primary_config (lower ext) = webm_config.
Proof. intros ->. reflexivity. Qed.

Lemma primary_config_other ext :
  lower ext <> ".webm" -> primary_config (lower ext) = default_config.
Proof.
  intros H. unfold primary_config.
  now destruct (String.eqb_spec (lower ext) ".webm").
Qed.

Lemma primary_not_in_sweep ext : ~ In (primary_config ext) sweep_configs.
Proof.
  unfold primary_config. destruct (ext =? ".webm"); intros H;
    repeat (destruct H as [H|H]; [discriminate H|]); exact H.
Qed.

(** **** Deterministic stubs *)

Lemma for_pair_deterministic :
  deterministic ->
  forall pairs audio (w w' : World),
    fst (for_pair pairs audio w) = fst (for_pair pairs audio w').
Proof.
  intros Hdet pairs audio.
  induction pairs as [|[enc rate] pairs IH]; intros w w'; [reflexivity|].
  cbn [VoiceAgent.for_pair fst snd]. unfold bind.
  pose proof (Hdet (stt w) (stt w') (fallback_config enc rate) audio) as Ho.
  destruct (recognize (stt w) (fallback_config enc rate) audio)
    as [o s1] eqn:E.
  destruct (recognize (stt w') (fallback_config enc rate) audio)
    as [o' s1'] eqn:E'.
  cbn [fst] in Ho. subst o'.
  rewrite (fallback_attempt_eq _ _ _ _ _ _ E),
          (fallback_attempt_eq _ _ _ _ _ _ E').
  destruct (attempt_transcript o); [reflexivity|apply IH].
Qed.

Lemma fallback_sweep_deterministic :
  deterministic ->
  forall audio (w w' : World),
    fst (fallback_sweep audio w) = fst (fallback_sweep audio w').
Proof.
  intros Hdet audio w w'. rewrite !fallback_sweep_eq.
  pose proof (for_pair_deterministic Hdet sweep_pairs audio w w') as H.
  destruct (for_pair sweep_pairs audio w) as [[[t|]|e] w1];
    destruct (for_pair sweep_pairs audio w') as [[[t'|]|e'] w1'];
    cbn [fst] in *; congruence.
Qed.

Lemma speech_to_text_deterministic :
  deterministic ->
  forall path path' (w w' : World) content,
    files w path = Some content ->
    files w' path' = Some content ->
    lower (snd (splitext path)) = lower (snd (splitext path')) ->
    fst (speech_to_text path w) = fst (speech_to_text path' w').
Proof.
  intros Hdet path path' w w' content Hf Hf' Hext.
  set (config := primary_config (lower (snd (splitext path)))).
  pose proof (Hdet (stt w) (stt w') config content) as H1.
  destruct (recognize (stt w) config content) as [o1 s1] eqn:E1.
  destruct (recognize (stt w') config content) as [o1' s1'] eqn:E1'.
  cbn [fst] in H1. subst o1'.
  pose proof (Hdet s1 s1' alternative_config content) as H2.
  destruct (recognize s1 alternative_config content) as [o2 s2] eqn:E2.
  destruct (recognize s1' alternative_config content) as [o2' s2'] eqn:E2'.
  cbn [fst] in H2. subst o2'.
  rewrite (speech_to_text_cases _ _ _ _ _ _ _ Hf E1 E2).
  unfold config in E1', E2'. rewrite Hext in E1'.
  rewrite (speech_to_text_cases _ _ _ _ _ _ _ Hf' E1' E2').
  rewrite <- Hext. fold config.
  destruct o1 as [r1|e]; [|now apply fallback_sweep_deterministic].
  destruct (has_results r1).
  - destruct (join_transcripts r1);
      [reflexivity|now apply fallback_sweep_deterministic].
  - destruct o2 as [r2|e]; [|now apply fallback_sweep_deterministic].
    destruct (has_results r2); [|reflexivity].
    destruct (join_transcripts r2);
      [reflexivity|now apply fallback_sweep_deterministic].
Qed.

Lemma speech_to_text_files path (w : World) :
  files (snd (speech_to_text path w)) = files w.
Proof.
  destruct (files w path) as [content|] eqn:Hf.
  - destruct (speech_to_text_outcome _ _ _ Hf) as (t & cs & s & -> & _).
    reflexivity.
  - now rewrite (speech_to_text_missing _ _ Hf).
Qed.

Lemma speech_to_text_joins_last path (w : World) content cs c r :
  files w path = Some content ->
  calls (snd (speech_to_text path w)) = (cs ++ [c])%list ->
  call_outcome c = Return r ->
  results r <> [] ->
  well_formed r ->
  fst (speech_to_text path w)
  = Return (join " " (map first_text (results r))).
Proof.
  intros Hf Hcs Hc Hr Hwf.
  assert (Hj : join_transcripts r
               = Return (join " " (map first_text (results r))))
    by now apply join_transcripts_well_formed.
  destruct (speech_to_text_outcome _ _ _ Hf) as (t & cs0 & s & Heq & H).
  rewrite Hcs in H. rewrite Heq. cbn [fst].
  destruct H as [[_ (cs' & c' & E & Hn)]|[[_ (cs' & c' & r' & E & Hc' & Hr')]
                                        |(cs' & c' & r' & E & Hc' & _ & Hj')]];
    apply app_inj_tail in E; destruct E as [_ <-].
  - rewrite Hc in Hn. simpl in Hn.
    apply has_results_true in Hr. rewrite Hr, Hj in Hn. discriminate.
  - congruence.
  - congruence.
Qed.

(** *** The claims *)

(** C1 (amended).  Provided the audio file can be opened and read, for
    every behaviour of the recognizer (any sequence of results or raised
    exceptions) [speech_to_text] returns a string to its caller and
    raises nothing: every failure after the file was read is absorbed,
    and the string is the joined transcript of the last response
    received, or the empty-result string, or the failure sentinel. *)
Theorem C1_returns_string_once_file_is_read path (w : World) content :
  files w path = Some content ->
  exists t,
    fst (speech_to_text path w) = Return t /\
    (transcript_of_last (calls (snd (speech_to_text path w))) t \/
     t = no_speech \/ t = failed).
Proof.
  intros Hf.
  destruct (speech_to_text_outcome _ _ _ Hf) as (t & cs & s & Heq & H).
  exists t. split; [now rewrite Heq|].
  destruct H as [[-> _]|[[-> _]|H]]; auto.
Qed.

(** C2.  The sweep visits the sixteen (encoding, rate) pairs with the
    encodings LINEAR16, OGG_OPUS, WEBM_OPUS, MP3 outermost and the rates
    48000, 44100, 16000, 8000 innermost.  For every recognizer, if the
    attempts before the [k]-th raise or return zero segments (a raised
    exception is swallowed and the sweep goes on) and the [k]-th returns
    at least one segment, the sweep returns the joined transcript of that
    response at once: the calls it made are exactly the first [k + 1]
    of the sweep order. *)
Theorem C2_sweep_first_success_wins audio (w : World) k c r :
  nth_error (fst (run_calls sweep_configs audio (stt w))) k = Some c ->
  call_outcome c = Return r ->
  results r <> [] ->
  well_formed r ->
  (forall i c', i < k ->
     nth_error (fst (run_calls sweep_configs audio (stt w))) i = Some c' ->
     no_segments (call_outcome c')) ->
  sweep_pairs
  = [ (LINEAR16, 48000); (LINEAR16, 44100); (LINEAR16, 16000);
      (LINEAR16, 8000);
      (OGG_OPUS, 48000); (OGG_OPUS, 44100); (OGG_OPUS, 16000);
      (OGG_OPUS, 8000);
      (WEBM_OPUS, 48000); (WEBM_OPUS, 44100); (WEBM_OPUS, 16000);
      (WEBM_OPUS, 8000);
      (MP3, 48000); (MP3, 44100); (MP3, 16000); (MP3, 8000) ]%Z /\
  length sweep_configs = 16 /\
  fst (fallback_sweep audio w)
  = Return (join " " (map first_text (results r))) /\
  calls (snd (fallback_sweep audio w))
  = (calls w ++ firstn (S k) (fst (run_calls sweep_configs audio (stt w))))%list
  /\
  map call_config (firstn (S k) (fst (run_calls sweep_configs audio (stt w))))
  = firstn (S k) sweep_configs.
Proof.
  intros Hk Hc Hr Hwf Hlt.
  split; [reflexivity|]. split; [reflexivity|].
  assert (Ht : attempt_transcript (call_outcome c)
               = Some (join " " (map first_text (results r)))).
  { apply attempt_transcript_some. exists r. repeat split; trivial.
    now apply join_transcripts_well_formed. }
  rewrite fallback_sweep_eq.
  rewrite (for_pair_first sweep_pairs audio w k c _ Hk Ht).
  - repeat split. rewrite <- firstn_map. f_equal. apply run_calls_configs.
  - intros i c' Hi Hc'. apply no_segments_no_transcript. eauto.
Qed.

(** C3 (amended).  The fallback sweep is entered exactly when an
    exception is raised inside the guarded block: by the primary call,
    by the secondary WEBM_OPUS call, or by the join on a segment without
    alternatives.  When the primary call returns at least one segment, or
    returns none and the secondary call returns, no sweep attempt is
    made; and the sweep never retries the primary configuration. *)
Theorem C3_sweep_entered_on_exception_in_guarded_block
        path (w : World) content o1 s1 o2 s2 :
  files w path = Some content ->
  recognize (stt w) (primary_config (lower (snd (splitext path)))) content
  = (o1, s1) ->
  recognize s1 alternative_config content = (o2, s2) ->
  let config := primary_config (lower (snd (splitext path))) in
  let c1 := mkcall config content o1 in
  let c2 := mkcall alternative_config content o2 in
  ~ In config sweep_configs /\
  (forall e, o1 = Raise e ->
     speech_to_text path w = fallback_sweep content (after w [c1] s1)) /\
  (forall r1, o1 = Return r1 -> results r1 <> [] -> well_formed r1 ->
     calls (snd (speech_to_text path w)) = (calls w ++ [c1])%list) /\
  (forall r1 r2, o1 = Return r1 -> results r1 = [] ->
     o2 = Return r2 -> well_formed r2 ->
     calls (snd (speech_to_text path w)) = (calls w ++ [c1; c2])%list) /\
  (forall r1 e, o1 = Return r1 -> results r1 = [] -> o2 = Raise e ->
     speech_to_text path w = fallback_sweep content (after w [c1; c2] s2)) /\
  (forall t w', guarded_block config content w = (Return t, w') ->
     speech_to_text path w = (Return t, w')) /\
  (forall e w', guarded_block config content w = (Raise e, w') ->
     speech_to_text path w = fallback_sweep content w').
Proof.
  intros Hf E1 E2 config c1 c2.
  pose proof (speech_to_text_cases _ _ _ _ _ _ _ Hf E1 E2) as Hcases.
  cbv zeta in Hcases. fold config c1 c2 in Hcases.
  split; [apply primary_not_in_sweep|].
  split; [intros e ->; exact Hcases|].
  split.
  { intros r1 -> Hr Hwf. rewrite Hcases.
    apply has_results_true in Hr. rewrite Hr.
    now rewrite (join_transcripts_well_formed _ Hwf). }
  split.
  { intros r1 r2 -> Hr1 -> Hwf. rewrite Hcases.
    apply has_results_false in Hr1. rewrite Hr1.
    destruct (has_results r2); [|reflexivity].
    now rewrite (join_transcripts_well_formed _ Hwf). }
  split.
  { intros r1 e -> Hr1 ->. rewrite Hcases.
    apply has_results_false in Hr1. now rewrite Hr1. }
  rewrite (speech_to_text_eq _ _ _ Hf). fold config.
  split; intros x w' ->; reflexivity.
Qed.

(** C4.  When the primary call returns zero segments, the guarded block
    makes exactly one further call, with encoding WEBM_OPUS at 48000 Hz,
    model "latest_long", punctuation and the enhanced model on.  If that
    call returns at least one segment its joined transcript is returned,
    and if it returns zero segments the result is exactly
    "No speech detected in audio file"; in both cases nothing else is
    called. *)
Theorem C4_secondary_attempt path (w : World) content r1 s1 o2 s2 :
  files w path = Some content ->
  recognize (stt w) (primary_config (lower (snd (splitext path)))) content
  = (Return r1, s1) ->
  results r1 = [] ->
  recognize s1 alternative_config content = (o2, s2) ->
  let config := primary_config (lower (snd (splitext path))) in
  let c1 := mkcall config content (Return r1) in
  let c2 := mkcall alternative_config content o2 in
  calls (snd (guarded_block config content w)) = (calls w ++ [c1; c2])%list /\
  alternative_config
  = {| encoding := WEBM_OPUS; sample_rate_hertz := Some 48000%Z;
       language_code := "en-US"; enable_automatic_punctuation := true;
       use_enhanced := true; model := "latest_long";
       audio_channel_count := None |} /\
  (forall r2, o2 = Return r2 -> results r2 <> [] -> well_formed r2 ->
     speech_to_text path w
     = (Return (join " " (map first_text (results r2))),
        after w [c1; c2] s2)) /\
  (forall r2, o2 = Return r2 -> results r2 = [] ->
     speech_to_text path w
     = (Return "No speech detected in audio file", after w [c1; c2] s2)).
Proof.
  intros Hf E1 Hr1 E2. cbv zeta.
  apply has_results_false in Hr1.
  split.
  { rewrite (guarded_block_cases _ _ _ _ _ _ _ E1 E2), Hr1.
    destruct o2 as [r2|e]; [|reflexivity].
    now destruct (has_results r2). }
  split; [reflexivity|].
  pose proof (speech_to_text_cases _ _ _ _ _ _ _ Hf E1 E2) as Hcases.
  cbv beta iota zeta in Hcases. rewrite Hr1 in Hcases.
  split.
  - intros r2 -> Hr2 Hwf. rewrite Hcases.
    apply has_results_true in Hr2. rewrite Hr2.
    now rewrite (join_transcripts_well_formed _ Hwf).
  - intros r2 -> Hr2. rewrite Hcases.
    apply has_results_false in Hr2. now rewrite Hr2.
Qed.

(** C5.  Once the sweep is entered, if every one of its sixteen attempts
    raises or returns zero segments, [speech_to_text] returns exactly
    "Could not transcribe audio. Speech recognition failed." after all
    sixteen calls; this string differs from the empty-result string of
    the secondary path. *)
Theorem C5_exhausted_sweep_returns_failure path (w : World) content e w1 :
  files w path = Some content ->
  guarded_block (primary_config (lower (snd (splitext path)))) content w
  = (Raise e, w1) ->
  (forall c, In c (fst (run_calls sweep_configs content (stt w1))) ->
             no_segments (call_outcome c)) ->
  fst (speech_to_text path w)
  = Return "Could not transcribe audio. Speech recognition failed." /\
  calls (snd (speech_to_text path w))
  = (calls w1 ++ fst (run_calls sweep_configs content (stt w1)))%list /\
  length (fst (run_calls sweep_configs content (stt w1))) = 16 /\
  failed <> no_speech.
Proof.
  intros Hf Hb Hall.
  rewrite (speech_to_text_eq _ _ _ Hf), Hb, fallback_sweep_eq.
  rewrite (for_pair_exhausted sweep_pairs content w1).
  - repeat split; [apply run_calls_length|discriminate].
  - intros c Hc. apply no_segments_no_transcript. now apply Hall.
Qed.

(** C6.  The first recognizer call that [speech_to_text] makes is made
    on the bytes of the file.  If the extension, lower-cased, equals
    ".webm" it uses OGG_OPUS at 48000 Hz with one audio channel; for
    every other extension it uses LINEAR16 and sets no sample rate. *)
Theorem C6_primary_attempt_selection path (w : World) c rest :
  calls (snd (speech_to_text path w)) = (calls w ++ c :: rest)%list ->
  files w path = Some (call_audio c) /\
  (lower (snd (splitext path)) = ".webm" ->
   encoding (call_config c) = OGG_OPUS /\
   sample_rate_hertz (call_config c) = Some 48000%Z /\
   audio_channel_count (call_config c) = Some 1%Z) /\
  (lower (snd (splitext path)) <> ".webm" ->
   encoding (call_config c) = LINEAR16 /\
   sample_rate_hertz (call_config c) = None).
Proof.
  intros Hcalls.
  destruct (files w path) as [content|] eqn:Hf.
  - destruct (speech_to_text_outcome _ _ _ Hf) as (t & cs & s & Heq & _).
    rewrite Heq in Hcalls. cbn [snd calls VoiceAgent.after] in Hcalls.
    apply app_inv_head in Hcalls. injection Hcalls as <- _.
    split; [reflexivity|]. cbn [call_config mkcall]. split; intros H.
    + now rewrite (primary_config_webm _ H).
    + now rewrite (primary_config_other _ H).
  - rewrite (speech_to_text_missing _ _ Hf) in Hcalls.
    apply (f_equal (@length call)) in Hcalls.
    rewrite length_app in Hcalls. simpl in Hcalls. lia.
Qed.

(** C7.  Join rule: when the last response that [speech_to_text]
    received has at least one segment, the returned transcript is the
    first-alternative text of each of its segments, in the order of the
    response, joined by one space; the texts are used as they are.
    Segments "hello", "world" give "hello world". *)
Theorem C7_join_rule path (w : World) cs c r :
  calls (snd (speech_to_text path w)) = (calls w ++ cs ++ [c])%list ->
  call_outcome c = Return r ->
  results r <> [] ->
  well_formed r ->
  fst (speech_to_text path w)
  = Return (join " " (map first_text (results r))) /\
  (forall x, join " " [x] = x) /\
  (forall x y l, join " " (x :: y :: l) = x ++ " " ++ join " " (y :: l)) /\
  join_transcripts (response_of ["hello"; "world"]) = Return "hello world".
Proof.
  intros Hcs Hc Hr Hwf.
  split; [|repeat split].
  destruct (files w path) as [content|] eqn:Hf.
  - rewrite app_assoc in Hcs.
    now apply (speech_to_text_joins_last _ _ _ _ _ _ Hf Hcs Hc).
  - rewrite (speech_to_text_missing _ _ Hf) in Hcs.
    apply (f_equal (@length call)) in Hcs.
    rewrite !length_app in Hcs. simpl in Hcs. lia.
Qed.

(** C8.  Determinism: against a deterministic stub, two calls of
    [speech_to_text] on files with identical bytes and identical
    (lower-cased) extension return identical results, whatever the
    recognizer state and call history they start from; in particular a
    second call right after the first returns what the first did. *)
Theorem C8_deterministic_output path path' (w w' : World) content :
  deterministic ->
  files w path = Some content ->
  files w' path' = Some content ->
  lower (snd (splitext path)) = lower (snd (splitext path')) ->
  fst (speech_to_text path w) = fst (speech_to_text path' w') /\
  fst (speech_to_text path (snd (speech_to_text path w)))
  = fst (speech_to_text path w) /\
  exists t, fst (speech_to_text path w) = Return t.
Proof.
  intros Hdet Hf Hf' Hext. split; [|split].
  - now apply (speech_to_text_deterministic Hdet _ _ _ _ content).
  - apply (speech_to_text_deterministic Hdet _ _ _ _ content); trivial.
    now rewrite speech_to_text_files.
  - destruct (speech_to_text_outcome _ _ _ Hf) as (t & cs & s & Heq & _).
    exists t. now rewrite Heq.
Qed.

End Proofs.

(** *** The claims at concrete stubs *)

Lemma table_stub_deterministic f : deterministic unit (table_stub f).
Proof. intros [] [] config audio. reflexivity. Qed.

Lemma C1_witness :
  files (world0 tt) "note.wav" = Some audio0 /\
  exists t,
    fst (speech_to_text unit raising_stub "note.wav" (world0 tt)) = Return t /\
    (transcript_of_last
       (calls (snd (speech_to_text unit raising_stub "note.wav" (world0 tt))))
       t \/ t = no_speech \/ t = failed).
Proof.
  split; [reflexivity|].
  apply (C1_returns_string_once_file_is_read unit raising_stub "note.wav"
           (world0 tt) audio0).
  reflexivity.
Defined.

(** C1 as stated fails: the file is opened outside the [try], so a path
    that cannot be opened makes [speech_to_text] raise, whatever the
    recognizer does. *)
Lemma C1_counterexample :
  fst (speech_to_text unit silent_stub "missing.wav" (world0 tt))
  = Raise (Exn OSError "missing.wav") /\
  ~ (exists t,
       fst (speech_to_text unit silent_stub "missing.wav" (world0 tt))
       = Return t).
Proof.
  split; [reflexivity|]. intros [t H]. discriminate H.
Qed.

Lemma C2_witness :
  fst (fallback_sweep unit ogg_44100_stub audio0 (world0 tt))
  = Return "hello world" /\
  map call_config
      (calls (snd (fallback_sweep unit ogg_44100_stub audio0 (world0 tt))))
  = [ fallback_config LINEAR16 48000; fallback_config LINEAR16 44100;
      fallback_config LINEAR16 16000; fallback_config LINEAR16 8000;
      fallback_config OGG_OPUS 48000; fallback_config OGG_OPUS 44100 ].
Proof.
  destruct (C2_sweep_first_success_wins unit ogg_44100_stub audio0 (world0 tt)
              5 (mkcall (fallback_config OGG_OPUS 44100) audio0
                        (Return (response_of ["hello"; "world"])))
              (response_of ["hello"; "world"]))
    as (_ & _ & Hres & Hcalls & _).
  - reflexivity.
  - reflexivity.
  - discriminate.
  - repeat constructor; discriminate.
  - intros i c' Hi Hc'.
    do 5 (destruct i as [|i];
          [injection Hc' as <-; reflexivity|]).
    lia.
  - split; [exact Hres|]. rewrite Hcalls. reflexivity.
Defined.

Lemma C3_witness :
  calls (snd (speech_to_text unit webm_only_stub "note.wav" (world0 tt)))
  = [ mkcall default_config audio0 (Return (response_of []));
      mkcall alternative_config audio0
             (Return (response_of ["good"; "morning"])) ] /\
  ~ In default_config sweep_configs.
Proof.
  destruct (C3_sweep_entered_on_exception_in_guarded_block
              unit webm_only_stub "note.wav" (world0 tt) audio0
              (Return (response_of [])) tt
              (Return (response_of ["good"; "morning"])) tt
              eq_refl eq_refl eq_refl)
    as (Hnot & _ & _ & Hquiet & _).
  split; [|exact Hnot].
  apply (Hquiet (response_of []) (response_of ["good"; "morning"]));
    try reflexivity.
  repeat constructor; discriminate.
Defined.

(** C3 as stated fails: the primary call succeeds (with zero segments),
    the secondary call raises, and the sixteen sweep attempts follow. *)
Lemma C3_counterexample :
  fst (silent_then_raising_stub tt default_config audio0)
  = Return (response_of []) /\
  map call_config
      (calls (snd (speech_to_text unit silent_then_raising_stub "note.wav"
                                  (world0 tt))))
  = default_config :: alternative_config :: sweep_configs /\
  fst (speech_to_text unit silent_then_raising_stub "note.wav" (world0 tt))
  = Return failed.
Proof. repeat split. Qed.

Lemma C4_witness :
  speech_to_text unit webm_only_stub "note.wav" (world0 tt)
  = (Return "good morning",
     after unit (world0 tt)
       [ mkcall default_config audio0 (Return (response_of []));
         mkcall alternative_config audio0
                (Return (response_of ["good"; "morning"])) ] tt) /\
  fst (speech_to_text unit silent_stub "note.wav" (world0 tt))
  = Return "No speech detected in audio file".
Proof.
  split.
  - destruct (C4_secondary_attempt unit webm_only_stub "note.wav" (world0 tt)
                audio0 (response_of []) tt
                (Return (response_of ["good"; "morning"])) tt
                eq_refl eq_refl eq_refl eq_refl)
      as (_ & _ & Hjoin & _).
    apply (Hjoin (response_of ["good"; "morning"])); try reflexivity.
    + discriminate.
    + repeat constructor; discriminate.
  - destruct (C4_secondary_attempt unit silent_stub "note.wav" (world0 tt)
                audio0 (response_of []) tt (Return (response_of [])) tt
                eq_refl eq_refl eq_refl eq_refl)
      as (_ & _ & _ & Hnone).
    now rewrite (Hnone (response_of []) eq_refl eq_refl).
Defined.

Lemma C5_witness :
  fst (speech_to_text unit raising_stub "note.wav" (world0 tt))
  = Return "Could not transcribe audio. Speech recognition failed." /\
  length (calls (snd (speech_to_text unit raising_stub "note.wav"
                                     (world0 tt)))) = 17.
Proof.
  destruct (C5_exhausted_sweep_returns_failure unit raising_stub "note.wav"
              (world0 tt) audio0 boom
              (after unit (world0 tt)
                     [mkcall default_config audio0 (Raise boom)] tt)
              eq_refl eq_refl)
    as (Hres & Hcalls & _).
  - intros c Hc. vm_compute in Hc.
    repeat (destruct Hc as [<-|Hc]; [exact I|]). destruct Hc.
  - split; [exact Hres|]. rewrite Hcalls. reflexivity.
Defined.

Lemma C6_witness :
  exists c rest,
    calls (snd (speech_to_text unit silent_stub "clips/Take.1.WebM"
                               (world0 tt))) = c :: rest /\
    encoding (call_config c) = OGG_OPUS /\
    sample_rate_hertz (call_config c) = Some 48000%Z /\
    audio_channel_count (call_config c) = Some 1%Z.
Proof.
  exists (mkcall webm_config audio0 (Return (response_of []))),
         [mkcall alternative_config audio0 (Return (response_of []))].
  split; [reflexivity|].
  apply (C6_primary_attempt_selection unit silent_stub "clips/Take.1.WebM"
           (world0 tt) _ _ eq_refl).
  reflexivity.
Defined.

Lemma C7_witness :
  fst (speech_to_text unit ogg_44100_stub "note.wav" (world0 tt))
  = Return "hello world".
Proof.
  apply (C7_join_rule unit ogg_44100_stub "note.wav" (world0 tt)
           (firstn 6 (calls (snd (speech_to_text unit ogg_44100_stub
                                                 "note.wav" (world0 tt)))))
           (mkcall (fallback_config OGG_OPUS 44100) audio0
                   (Return (response_of ["hello"; "world"])))
           (response_of ["hello"; "world"])).
  - reflexivity.
  - reflexivity.
  - discriminate.
  - repeat constructor; discriminate.
Defined.

Lemma C8_witness :
  fst (speech_to_text unit webm_only_stub "a/note.wav" (world0 tt))
  = fst (speech_to_text unit webm_only_stub "b/memo.WAV"
           (snd (speech_to_text unit webm_only_stub "a/note.wav" (world0 tt)))).
Proof.
  apply (C8_deterministic_output unit webm_only_stub "a/note.wav" "b/memo.WAV"
           (world0 tt)
           (snd (speech_to_text unit webm_only_stub "a/note.wav" (world0 tt)))
           audio0).
  - apply table_stub_deterministic.
  - reflexivity.
  - reflexivity.
  - reflexivity.
Defined.

(** *** The scenarios of the specification, run *)

Example run_webm_extension :
  map call_config
      (calls (snd (speech_to_text unit silent_stub "x.WEBM" (world0 tt))))
  = [webm_config; alternative_config].
Proof. reflexivity. Qed.

Example run_ogg_44100 :
  speech_to_text unit ogg_44100_stub "note.wav" (world0 tt)
  = (Return "hello world",
     after unit (world0 tt)
       (fst (run_calls unit ogg_44100_stub
               (default_config :: firstn 6 sweep_configs) audio0 tt)) tt).
Proof. reflexivity. Qed.

Example run_scripted_recognizer :
  fst (speech_to_text _ script_stub "note.wav"
         (world0 [ Return (response_of []); Raise boom; Raise boom;
                   Return (response_of [" a "; " a "]) ]))
  = Return " a   a ".
Proof. reflexivity. Qed.

(** A segment without alternatives makes the join raise [IndexError];
    inside the sweep the exception is swallowed and the next pair is
    tried. *)
Example run_segment_without_alternatives :
  fst (speech_to_text _ script_stub "note.wav"
         (world0 [ Raise boom;
                   Return {| results := [ {| alternatives := [] |} ] |};
                   Return (response_of ["later"]) ]))
  = Return "later".
Proof. reflexivity. Qed.

Example splitext_examples :
  splitext "a/b.c/file.webm" = ("a/b.c/file", ".webm") /\
  splitext "a/b.c/.bashrc" = ("a/b.c/.bashrc", "") /\
  splitext "a/b.c/file" = ("a/b.c/file", "") /\
  lower ".WebM" = ".webm".
Proof. repeat split. Qed.

End VoiceAgentSpec.

(* ================================================================= *)
(** * Properties of [clean_llm_json] *)

Module LlmResponseHandlingSpec.

Import Re Json LlmResponseHandling.

(** **** Strings *)

Lemma append_nil_r (s : string) : s ++ "" = s.
Proof. induction s as [|c s IH]; simpl; [reflexivity|now rewrite IH]. Qed.

Lemma append_assoc (a b c : string) : (a ++ b) ++ c = a ++ (b ++ c).
Proof. induction a as [|x a IH]; simpl; [reflexivity|now rewrite IH]. Qed.

Lemma length_append (a b : string) :
  String.length (a ++ b) = String.length a + String.length b.
Proof. induction a as [|x a IH]; simpl; [reflexivity|now rewrite IH]. Qed.

Lemma substring_prefix (a b : string) :
  substring 0 (String.length a) (a ++ b) = a.
Proof.
  induction a as [|x a IH]; simpl.
  - now destruct b.
  - now rewrite IH.
Qed.

(** **** The matcher depends on its continuation pointwise *)

Lemma star_loop_ext (body : matcher) :
  (forall s gs k1 k2, agree k1 k2 -> body s gs k1 = body s gs k2) ->
  forall k1 k2, agree k1 k2 ->
  forall fuel s gs,
    star_loop body k1 fuel s gs = star_loop body k2 fuel s gs.
Proof.
  intros Hb k1 k2 Hk fuel.
  induction fuel as [|fuel IH]; intros s gs; simpl; rewrite Hk;
    [reflexivity|].
  rewrite (Hb s gs _
             (fun s' gs' =>
                if (String.length s' <? String.length s)%nat
                then star_loop body k2 fuel s' gs' else None)).
  - reflexivity.
  - intros s' gs'. destruct (String.length s' <? String.length s)%nat;
      [apply IH|reflexivity].
Qed.

Lemma lazy_loop_ext (body : matcher) :
  (forall s gs k1 k2, agree k1 k2 -> body s gs k1 = body s gs k2) ->
  forall k1 k2, agree k1 k2 ->
  forall fuel s gs,
    lazy_loop body k1 fuel s gs = lazy_loop body k2 fuel s gs.
Proof.
  intros Hb k1 k2 Hk fuel.
  induction fuel as [|fuel IH]; intros s gs; simpl; rewrite Hk;
    [reflexivity|].
  destruct (k2 s gs); [reflexivity|].
  apply Hb. intros s' gs'.
  destruct (String.length s' <? String.length s)%nat;
    [apply IH|reflexivity].
Qed.

Lemma exec_ext r :
  forall s gs k1 k2, agree k1 k2 -> exec r s gs k1 = exec r s gs k2.
Proof.
  induction r as [|c| | |r1 IH1 r2 IH2|r1 IH1 r2 IH2|r IH|r IH|r IH|n r IH];
    intros s gs k1 k2 Hk; simpl.
  - apply Hk.
  - destruct s as [|c' s]; [reflexivity|].
    destruct (Ascii.eqb c c'); [apply Hk|reflexivity].
  - destruct s as [|c' s]; [reflexivity|apply Hk].
  - destruct s as [|c' s]; [reflexivity|].
    destruct (isspace c'); [apply Hk|reflexivity].
  - apply IH1. intros s' gs'. now apply IH2.
  - rewrite (IH1 s gs k1 k2 Hk), (IH2 s gs k1 k2 Hk). reflexivity.
  - rewrite (IH s gs k1 k2 Hk), Hk. reflexivity.
  - now apply star_loop_ext.
  - now apply lazy_loop_ext.
  - apply IH. intros s' gs'. apply Hk.
Qed.

(** **** The length of the text is enough fuel *)

Lemma exec_no_continuation r :
  forall s gs k, (forall s' gs', k s' gs' = None) -> exec r s gs k = None.
Proof.
  induction r as [|c| | |r1 IH1 r2 IH2|r1 IH1 r2 IH2|r IH|r IH|r IH|n r IH];
    intros s gs k Hk; simpl.
  - apply Hk.
  - destruct s as [|c' s]; [reflexivity|].
    destruct (Ascii.eqb c c'); [apply Hk|reflexivity].
  - destruct s as [|c' s]; [reflexivity|apply Hk].
  - destruct s as [|c' s]; [reflexivity|].
    destruct (isspace c'); [apply Hk|reflexivity].
  - apply IH1. intros s' gs'. now apply IH2.
  - now rewrite (IH1 s gs k Hk), (IH2 s gs k Hk).
  - now rewrite (IH s gs k Hk), Hk.
  - generalize (String.length s) at 1. intros fuel. revert s gs.
    induction fuel as [|fuel IHf]; intros s gs; simpl; [apply Hk|].
    rewrite IH; [apply Hk|].
    intros s' gs'. destruct (String.length s' <? String.length s)%nat;
      [apply IHf|reflexivity].
  - generalize (String.length s) at 1. intros fuel. revert s gs.
    induction fuel as [|fuel IHf]; intros s gs; simpl; rewrite Hk;
      [reflexivity|].
    apply IH.
    intros s' gs'. destruct (String.length s' <? String.length s)%nat;
      [apply IHf|reflexivity].
  - apply IH. intros s' gs'. apply Hk.
Qed.

Lemma star_loop_fuel r k fuel1 :
  forall fuel2 s gs,
    String.length s <= fuel1 -> String.length s <= fuel2 ->
    star_loop (exec r) k fuel1 s gs = star_loop (exec r) k fuel2 s gs.
Proof.
  assert (Hstop : forall fuel s gs, String.length s = 0 ->
                    star_loop (exec r) k fuel s gs = k s gs).
  { intros [|fuel] s gs Hs; simpl; [reflexivity|].
    rewrite exec_no_continuation; [reflexivity|].
    intros s' gs'. rewrite Hs. reflexivity. }
  induction fuel1 as [|fuel1 IH]; intros fuel2 s gs H1 H2.
  - rewrite !Hstop by lia. reflexivity.
  - destruct fuel2 as [|fuel2].
    + rewrite !Hstop by lia. reflexivity.
    + simpl.
      rewrite (exec_ext r s gs _
                 (fun s' gs' =>
                    if (String.length s' <? String.length s)%nat
                    then star_loop (exec r) k fuel2 s' gs' else None)).
      * reflexivity.
      * intros s' gs'.
        destruct (Nat.ltb_spec (String.length s') (String.length s));
          [apply IH; lia|reflexivity].
Qed.

Lemma lazy_loop_fuel r k fuel1 :
  forall fuel2 s gs,
    String.length s <= fuel1 -> String.length s <= fuel2 ->
    lazy_loop (exec r) k fuel1 s gs = lazy_loop (exec r) k fuel2 s gs.
Proof.
  assert (Hstop : forall fuel s gs, String.length s = 0 ->
                    lazy_loop (exec r) k fuel s gs = k s gs).
  { intros [|fuel] s gs Hs; simpl; destruct (k s gs); try reflexivity.
    rewrite exec_no_continuation; [reflexivity|].
    intros s' gs'. rewrite Hs. reflexivity. }
  induction fuel1 as [|fuel1 IH]; intros fuel2 s gs H1 H2.
  - rewrite !Hstop by lia. reflexivity.
  - destruct fuel2 as [|fuel2].
    + rewrite !Hstop by lia. reflexivity.
    + simpl. destruct (k s gs); [reflexivity|].
      apply exec_ext. intros s' gs'.
      destruct (Nat.ltb_spec (String.length s') (String.length s));
        [apply IH; lia|reflexivity].
Qed.

(** A match leaves a suffix of the text: it never grows it. *)
Lemma sub_loop_fuel r repl fuel1 :
  forall fuel2 s,
    String.length s < fuel1 -> String.length s < fuel2 ->
    sub_loop r repl fuel1 s = sub_loop r repl fuel2 s.
Proof.
  induction fuel1 as [|fuel1 IH]; intros fuel2 s H1 H2; [lia|].
  destruct fuel2 as [|fuel2]; [lia|].
  simpl.
  assert (Hskip :
    match s with
    | EmptyString => EmptyString
    | String c s' => String c (sub_loop r repl fuel1 s')
    end
    = match s with
      | EmptyString => EmptyString
      | String c s' => String c (sub_loop r repl fuel2 s')
      end).
  { destruct s as [|c s']; [reflexivity|].
    simpl in H1, H2. f_equal. apply IH; lia. }
  rewrite Hskip.
  destruct (match_at r s) as [[rest gs]|]; [|reflexivity].
  destruct (Nat.ltb_spec (String.length rest) (String.length s));
    [|reflexivity].
  f_equal. apply IH; lia.
Qed.

(** **** The structure pattern finds [find_structure] *)

Lemma split_last_append c s p rest :
  split_last c s = Some (p, rest) ->
  s = p ++ rest /\ exists inner, p = inner ++ String c "".
Proof.
  revert p rest; induction s as [|d s IH]; intros p rest; simpl;
    [discriminate|].
  destruct (split_last c s) as [[p' rest']|].
  - intros [= <- <-]. destruct (IH p' rest' eq_refl) as [-> [inner ->]].
    split; [reflexivity|]. now exists (String d inner).
  - destruct (Ascii.eqb_spec c d) as [<-|]; [|discriminate].
    intros [= <- <-]. split; [reflexivity|]. now exists "".
Qed.


Lemma star_any_then_chr c k :
  (forall s gs, k s gs <> None) ->
  forall fuel s gs,
    String.length s <= fuel ->
    star_loop (exec Any) (fun s' gs' => exec (Chr c) s' gs' k) fuel s gs
    = match split_last c s with
      | Some (p, rest) => k rest gs
      | None => None
      end.
Proof.
  intros Hk fuel. induction fuel as [|fuel IH]; intros s gs Hlen.
  - destruct s; [reflexivity|simpl in Hlen; lia].
  - destruct s as [|d s]; [reflexivity|].
    simpl in Hlen.
    cbn [star_loop exec split_last String.length].
    replace (String.length s <? S (String.length s))%nat with true
      by (symmetry; apply Nat.ltb_lt; lia).
    rewrite IH by lia.
    destruct (split_last c s) as [[p rest]|].
    + destruct (k rest gs) eqn:E; [reflexivity|now apply Hk in E].
    + now destruct (Ascii.eqb c d).
Qed.

Lemma exec_delimited o c k :
  (forall s gs, k s gs <> None) ->
  forall d s gs,
    exec (Cat (Chr o) (Cat (Star Any) (Chr c))) (String d s) gs k
    = if Ascii.eqb o d then
        match split_last c s with
        | Some (p, rest) => k rest gs
        | None => None
        end
      else None.
Proof.
  intros Hk d s gs. cbn [exec].
  destruct (Ascii.eqb o d); [|reflexivity].
  apply (star_any_then_chr c k Hk). lia.
Qed.

Lemma exec_group n r s gs k :
  exec (Group n r) s gs k
  = exec r s gs
      (fun s' gs' =>
         k s' (set_group n
                 (substring 0 (String.length s - String.length s') s) gs')).
Proof. reflexivity. Qed.

Lemma exec_alt r1 r2 s gs k :
  exec (Alt r1 r2) s gs k
  = match exec r1 s gs k with
    | Some m => Some m
    | None => exec r2 s gs k
    end.
Proof. reflexivity. Qed.

Lemma captured_prefix d p rest :
  substring 0 (String.length (String d (p ++ rest)) - String.length rest)
            (String d (p ++ rest))
  = String d p.
Proof.
  cbn [String.length]. rewrite length_append.
  replace (S (String.length p + String.length rest) - String.length rest)
    with (String.length (String d p)) by (cbn [String.length]; lia).
  apply (substring_prefix (String d p) rest).
Qed.

Lemma match_at_structure d s :
  match structure_tail d s with
  | Some p =>
      exists rest,
        match_at json_structure_pattern (String d s)
        = Some (rest, [(1, String d p)])
  | None => match_at json_structure_pattern (String d s) = None
  end.
Proof.
  unfold match_at, json_structure_pattern, structure_tail.
  rewrite exec_group, exec_alt, !exec_delimited by discriminate.
  rewrite (Ascii.eqb_sym d "{"), (Ascii.eqb_sym d "[").
  destruct (Ascii.eqb_spec "{" d) as [<-|Hb].
  - destruct (split_last "}" s) as [[p rest]|] eqn:E; cbn [option_map fst].
    + exists rest. destruct (split_last_append _ _ _ _ E) as [-> _].
      now rewrite captured_prefix.
    + reflexivity.
  - destruct (Ascii.eqb_spec "[" d) as [<-|Hs]; [|reflexivity].
    destruct (split_last "]" s) as [[p rest]|] eqn:E; cbn [option_map fst].
    + exists rest. destruct (split_last_append _ _ _ _ E) as [-> _].
      now rewrite captured_prefix.
    + reflexivity.
Qed.

Lemma search_structure s :
  search json_structure_pattern s
  = option_map (fun m => [(1, m)]) (find_structure s).
Proof.
  induction s as [|d s IH]; [reflexivity|].
  cbn [search find_structure].
  pose proof (match_at_structure d s) as H.
  destruct (structure_tail d s) as [p|].
  - destruct H as [rest ->]. reflexivity.
  - rewrite H. exact IH.
Qed.



(** **** The code-block pattern never matches the empty text *)

Lemma star_loop_min_len (body : matcher) k :
  (forall s gs k' m, body s gs k' = Some m ->
     exists s' gs', String.length s' <= String.length s /\
                    k' s' gs' = Some m) ->
  forall fuel s gs m,
    star_loop body k fuel s gs = Some m ->
    exists s' gs', String.length s' <= String.length s /\ k s' gs' = Some m.
Proof.
  intros Hb fuel. induction fuel as [|fuel IH]; intros s gs m; simpl.
  - intros H. now exists s, gs.
  - destruct (body s gs _) as [m'|] eqn:E.
    + intros [= ->]. apply Hb in E. destruct E as (s1 & gs1 & Hl & E).
      destruct (Nat.ltb_spec (String.length s1) (String.length s));
        [|discriminate].
      apply IH in E. destruct E as (s' & gs' & Hl' & E).
      exists s', gs'. split; [lia|exact E].
    + intros H. now exists s, gs.
Qed.

Lemma lazy_loop_min_len (body : matcher) k :
  (forall s gs k' m, body s gs k' = Some m ->
     exists s' gs', String.length s' <= String.length s /\
                    k' s' gs' = Some m) ->
  forall fuel s gs m,
    lazy_loop body k fuel s gs = Some m ->
    exists s' gs', String.length s' <= String.length s /\ k s' gs' = Some m.
Proof.
  intros Hb fuel. induction fuel as [|fuel IH]; intros s gs m; simpl.
  - destruct (k s gs) eqn:E; [|discriminate].
    intros [= ->]. now exists s, gs.
  - destruct (k s gs) eqn:E.
    + intros [= ->]. now exists s, gs.
    + intros H. apply Hb in H. destruct H as (s1 & gs1 & Hl & H).
      destruct (Nat.ltb_spec (String.length s1) (String.length s));
        [|discriminate].
      apply IH in H. destruct H as (s' & gs' & Hl' & H).
      exists s', gs'. split; [lia|exact H].
Qed.

Lemma exec_min_len r :
  forall s gs k m,
    exec r s gs k = Some m ->
    exists s' gs',
      min_len r + String.length s' <= String.length s /\ k s' gs' = Some m.
Proof.
  induction r as [|c| | |r1 IH1 r2 IH2|r1 IH1 r2 IH2|r IH|r IH|r IH|n r IH];
    intros s gs k m; simpl.
  - intros H. now exists s, gs.
  - destruct s as [|c' s]; [discriminate|].
    destruct (Ascii.eqb c c'); [|discriminate].
    intros H. exists s, gs. simpl. split; [lia|exact H].
  - destruct s as [|c' s]; [discriminate|].
    intros H. exists s, gs. simpl. split; [lia|exact H].
  - destruct s as [|c' s]; [discriminate|].
    destruct (isspace c'); [|discriminate].
    intros H. exists s, gs. simpl. split; [lia|exact H].
  - intros H. apply IH1 in H. destruct H as (s1 & gs1 & Hl1 & H).
    apply IH2 in H. destruct H as (s2 & gs2 & Hl2 & H).
    exists s2, gs2. split; [lia|exact H].
  - destruct (exec r1 s gs k) as [m'|] eqn:E.
    + intros [= ->]. apply IH1 in E. destruct E as (s' & gs' & Hl & E).
      exists s', gs'. split; [lia|exact E].
    + intros H. apply IH2 in H. destruct H as (s' & gs' & Hl & H).
      exists s', gs'. split; [lia|exact H].
  - destruct (exec r s gs k) as [m'|] eqn:E.
    + intros [= ->]. apply IH in E. destruct E as (s' & gs' & Hl & E).
      exists s', gs'. split; [lia|exact E].
    + intros H. now exists s, gs.
  - apply star_loop_min_len. intros s0 gs0 k' m' H.
    apply IH in H. destruct H as (s' & gs' & Hl & H).
    exists s', gs'. split; [lia|exact H].
  - apply lazy_loop_min_len. intros s0 gs0 k' m' H.
    apply IH in H. destruct H as (s' & gs' & Hl & H).
    exists s', gs'. split; [lia|exact H].
  - intros H. apply IH in H. destruct H as (s' & gs' & Hl & H).
    eexists s', _. split; [exact Hl|exact H].
Qed.

Lemma code_block_match_consumes s rest gs :
  match_at code_block_pattern s = Some (rest, gs) ->
  6 + String.length rest <= String.length s.
Proof.
  intros H. apply exec_min_len in H.
  destruct H as (s' & gs' & Hl & [= -> _]). exact Hl.
Qed.

(** **** A code block whose text has no backtick *)

Lemma exec_cat r1 r2 s gs k :
  exec (Cat r1 r2) s gs k = exec r1 s gs (fun s' gs' => exec r2 s' gs' k).
Proof. reflexivity. Qed.

Lemma exec_opt r s gs k :
  exec (Opt r) s gs k
  = match exec r s gs k with
    | Some m => Some m
    | None => k s gs
    end.
Proof. reflexivity. Qed.

Lemma exec_lit_prefix p :
  forall s gs k, exec (lit p) (p ++ s) gs k = k s gs.
Proof.
  induction p as [|c p IH]; intros s gs k; [reflexivity|].
  cbn [lit append]. rewrite exec_cat. cbn [exec].
  rewrite Ascii.eqb_refl. apply IH.
Qed.

Lemma exec_lit_mismatch c p d s gs k :
  c <> d -> exec (lit (String c p)) (String d s) gs k = None.
Proof.
  intros H. cbn [lit]. rewrite exec_cat. cbn [exec].
  now destruct (Ascii.eqb_spec c d).
Qed.

Lemma fence_mismatch d s gs k :
  backtick <> d -> exec (lit fence) (String d s) gs k = None.
Proof. intros H. unfold fence. now apply exec_lit_mismatch. Qed.

Lemma exec_any_cons c s gs k : exec Any (String c s) gs k = k s gs.
Proof. reflexivity. Qed.

Lemma ltb_tail c s :
  (String.length s <? String.length (String c s))%nat = true.
Proof. apply Nat.ltb_lt. simpl. lia. Qed.

Lemma lazy_loop_unfold body k fuel s gs :
  lazy_loop body k fuel s gs
  = match k s gs with
    | Some m => Some m
    | None =>
        match fuel with
        | O => None
        | S fuel' =>
            body s gs
              (fun s' gs' =>
                 if (String.length s' <? String.length s)%nat
                 then lazy_loop body k fuel' s' gs' else None)
        end
    end.
Proof. destruct fuel; reflexivity. Qed.

Lemma substring_captured pre s' :
  substring 0 (String.length (pre ++ s') - String.length s') (pre ++ s')
  = pre.
Proof.
  rewrite length_append.
  replace (String.length pre + String.length s' - String.length s')
    with (String.length pre) by lia.
  apply substring_prefix.
Qed.

(** The end of the pattern, an optional newline and the fence, at the
    three kinds of position the lazy group can stop at. *)
Lemma closing_at_fence s gs k :
  exec (Cat (Opt (Chr LF)) (lit fence)) (fence ++ s) gs k = k s gs.
Proof.
  rewrite exec_cat, exec_opt. cbn [exec fence append].
  cbn [Ascii.eqb LF backtick Bool.eqb andb].
  apply (exec_lit_prefix fence).
Qed.

Lemma closing_at_newline_fence s gs k :
  exec (Cat (Opt (Chr LF)) (lit fence)) (String LF (fence ++ s)) gs k
  = k s gs.
Proof.
  rewrite exec_cat, exec_opt. cbn [exec].
  rewrite Ascii.eqb_refl, (exec_lit_prefix fence).
  destruct (k s gs); [reflexivity|].
  apply fence_mismatch. discriminate.
Qed.

Lemma closing_at_last_fence gs k :
  exec (Cat (Opt (Chr LF)) (lit fence)) fence gs k = k "" gs.
Proof. exact (closing_at_fence "" gs k). Qed.

Lemma closing_at_last_newline_fence gs k :
  exec (Cat (Opt (Chr LF)) (lit fence)) (String LF fence) gs k = k "" gs.
Proof. exact (closing_at_newline_fence "" gs k). Qed.

Lemma closing_inside x X s gs k :
  Ascii.eqb backtick x = false ->
  contains backtick X = false ->
  (x = LF -> X <> "") ->
  exec (Cat (Opt (Chr LF)) (lit fence)) (String x (X ++ s)) gs k = None.
Proof.
  intros Hx HX Hne. apply Ascii.eqb_neq in Hx.
  rewrite exec_cat, exec_opt. cbn [exec].
  destruct (Ascii.eqb_spec LF x) as [<-|Hlf].
  - destruct X as [|y Y]; [now elim Hne|].
    cbn [contains] in HX. apply Bool.orb_false_elim in HX. destruct HX as [Hy _].
    apply Ascii.eqb_neq in Hy.
    cbn [append]. rewrite (fence_mismatch y) by exact Hy.
    now apply fence_mismatch.
  - now apply fence_mismatch.
Qed.

Lemma chomp_cons x X :
  (x = LF -> X <> "") -> chomp (String x X) = String x (chomp X).
Proof.
  intros H. destruct X as [|y Y]; [|reflexivity].
  simpl. destruct (Ascii.eqb_spec x LF) as [E|_]; [|reflexivity].
  now elim (H E).
Qed.

(** The lazy group runs to the first place where the end of the pattern
    matches: the closing fence, or the newline right before it. *)
Lemma lazy_any_to_fence R0 gs0 X :
  forall pre fuel,
    R0 = pre ++ X ++ fence ->
    contains backtick X = false ->
    String.length (X ++ fence) <= fuel ->
    lazy_loop (exec Any)
      (fun s' gs' =>
         exec (Cat (Opt (Chr LF)) (lit fence)) s'
              (set_group 1
                 (substring 0 (String.length R0 - String.length s') R0) gs')
              (fun s'' gs'' => Some (s'', gs'')))
      fuel (X ++ fence) gs0
    = Some ("", set_group 1 (pre ++ chomp X) gs0).
Proof.
  induction X as [|x X IH]; intros pre fuel HR HX Hfuel.
  - rewrite lazy_loop_unfold. cbn [append] in *.
    rewrite closing_at_last_fence.
    subst R0. rewrite substring_captured.
    now rewrite append_nil_r.
  - cbn [contains] in HX. apply Bool.orb_false_elim in HX. destruct HX as [Hx HX].
    destruct (Ascii.eqb_spec x LF) as [->|Hlf]; [destruct X as [|y Y]|].
    + rewrite lazy_loop_unfold. cbn [append] in *.
      rewrite closing_at_last_newline_fence.
      subst R0. rewrite substring_captured.
      cbn [chomp]. now rewrite Ascii.eqb_refl, append_nil_r.
    + rewrite lazy_loop_unfold. cbn [append].
      rewrite (closing_inside LF (String y Y) fence) by
          (trivial; discriminate).
      destruct fuel as [|fuel]; [simpl in Hfuel; lia|].
      rewrite exec_any_cons, ltb_tail.
      replace (pre ++ chomp (String LF (String y Y)))
        with ((pre ++ String LF "") ++ chomp (String y Y))
        by (rewrite (chomp_cons LF (String y Y)) by (intros _; discriminate);
            now rewrite append_assoc).
      apply IH.
      * subst R0. now rewrite append_assoc.
      * exact HX.
      * cbn [String.length append] in *. lia.
    + rewrite lazy_loop_unfold. cbn [append].
      rewrite (closing_inside x X fence) by (trivial; congruence).
      destruct fuel as [|fuel]; [simpl in Hfuel; lia|].
      rewrite exec_any_cons, ltb_tail.
      replace (pre ++ chomp (String x X))
        with ((pre ++ String x "") ++ chomp X)
        by (rewrite (chomp_cons x X) by congruence;
            now rewrite append_assoc).
      apply IH.
      * subst R0. now rewrite append_assoc.
      * exact HX.
      * cbn [String.length append] in *. lia.
Qed.

Lemma exec_star r s gs k :
  exec (Star r) s gs k = star_loop (exec r) k (String.length s) s gs.
Proof. reflexivity. Qed.

Lemma exec_lazy_star r s gs k :
  exec (LazyStar r) s gs k = lazy_loop (exec r) k (String.length s) s gs.
Proof. reflexivity. Qed.

Lemma group_to_fence X gs0 :
  contains backtick X = false ->
  exec (Cat (Group 1 (LazyStar Any)) (Cat (Opt (Chr LF)) (lit fence)))
       (X ++ fence) gs0 (fun s gs => Some (s, gs))
  = Some ("", set_group 1 (chomp X) gs0).
Proof.
  intros HX. rewrite exec_cat, exec_group, exec_lazy_star.
  apply (lazy_any_to_fence (X ++ fence) gs0 X "" _ eq_refl HX).
  apply Nat.le_refl.
Qed.

(** The whitespace after the tag is taken whole when what follows it
    matches from the first character that is not whitespace. *)
Lemma star_space_greedy k d rest gs m ws :
  forall fuel,
    all_space ws = true ->
    isspace d = false ->
    k (String d rest) gs = Some m ->
    String.length (ws ++ String d rest) <= fuel ->
    star_loop (exec Space) k fuel (ws ++ String d rest) gs = Some m.
Proof.
  induction ws as [|c ws IH]; intros fuel Hws Hd Hk Hfuel.
  - cbn [append] in *. destruct fuel as [|fuel]; [exact Hk|].
    cbn [star_loop exec]. now rewrite Hd.
  - cbn [all_space] in Hws. apply andb_prop in Hws. destruct Hws as [Hc Hws].
    cbn [append String.length] in *.
    destruct fuel as [|fuel]; [lia|].
    cbn [star_loop exec]. rewrite Hc, ltb_tail.
    rewrite IH; trivial. lia.
Qed.

Lemma after_tag ws d Y :
  all_space ws = true ->
  d = "{"%char \/ d = "["%char ->
  contains backtick (String d Y) = false ->
  exec (Cat (Star Space)
       (Cat (Opt (Chr LF))
       (Cat (Group 1 (LazyStar Any))
       (Cat (Opt (Chr LF)) (lit fence)))))
       (ws ++ String d Y ++ fence) [] (fun s gs => Some (s, gs))
  = Some ("", [(1, chomp (String d Y))]).
Proof.
  intros Hws Hd HX. rewrite exec_cat, exec_star.
  cbn [append].
  apply star_space_greedy; trivial.
  - now destruct Hd as [->| ->].
  - rewrite exec_cat, exec_opt.
    assert (E : forall k, exec (Chr LF) (String d (Y ++ fence)) [] k = None).
    { intros k. cbn [exec]. now destruct Hd as [->| ->]. }
    rewrite E. apply (group_to_fence (String d Y) [] HX).
Qed.

Lemma tag_json s gs k m :
  k s gs = Some m ->
  exec (Opt (Alt (lit "json") (lit "javascript"))) ("json" ++ s) gs k
  = Some m.
Proof.
  intros H. rewrite exec_opt, exec_alt, (exec_lit_prefix "json"), H.
  reflexivity.
Qed.

Lemma tag_javascript s gs k m :
  k s gs = Some m ->
  exec (Opt (Alt (lit "json") (lit "javascript"))) ("javascript" ++ s) gs k
  = Some m.
Proof.
  intros H. rewrite exec_opt, exec_alt.
  replace (exec (lit "json") ("javascript" ++ s) gs k) with (@None (string * groups))
    by reflexivity.
  now rewrite (exec_lit_prefix "javascript"), H.
Qed.

Lemma tag_absent c s gs k :
  c <> "j"%char ->
  exec (Opt (Alt (lit "json") (lit "javascript"))) (String c s) gs k
  = k (String c s) gs.
Proof.
  intros H. rewrite exec_opt, exec_alt.
  rewrite !exec_lit_mismatch by congruence. reflexivity.
Qed.

Lemma match_code_block lang ws d Y :
  known_tag lang ->
  all_space ws = true ->
  d = "{"%char \/ d = "["%char ->
  contains backtick (String d Y) = false ->
  match_at code_block_pattern (fence ++ lang ++ ws ++ String d Y ++ fence)
  = Some ("", [(1, chomp (String d Y))]).
Proof.
  intros Hlang Hws Hd HX.
  unfold match_at, code_block_pattern.
  rewrite exec_cat, (exec_lit_prefix fence), exec_cat.
  pose proof (after_tag ws d Y Hws Hd HX) as Hrest.
  destruct Hlang as [->|[->| ->]].
  - cbn [append].
    destruct ws as [|c ws'].
    + cbn [append] in *. rewrite tag_absent; [exact Hrest|].
      now destruct Hd as [->| ->].
    + cbn [append] in *. rewrite tag_absent; [exact Hrest|].
      cbn [all_space] in Hws. apply andb_prop in Hws.
      destruct Hws as [Hc _]. intros ->. discriminate Hc.
  - now apply tag_json.
  - now apply tag_javascript.
Qed.

Lemma sub_single_match r repl s gs :
  match_at r s = Some ("", gs) ->
  s <> "" ->
  match_at r "" = None ->
  sub r repl s = expand repl gs.
Proof.
  intros Hm Hs He. unfold sub.
  destruct s as [|c s]; [contradiction|].
  cbn [sub_loop String.length]. rewrite Hm.
  cbn [String.length Nat.ltb Nat.leb sub_loop]. rewrite He.
  apply append_nil_r.
Qed.

Lemma sub_code_block lang ws d Y :
  known_tag lang ->
  all_space ws = true ->
  d = "{"%char \/ d = "["%char ->
  contains backtick (String d Y) = false ->
  sub code_block_pattern [Backref 1] (fence ++ lang ++ ws ++ String d Y ++ fence)
  = chomp (String d Y).
Proof.
  intros Hlang Hws Hd HX.
  rewrite (sub_single_match _ _ _ _ (match_code_block _ _ _ _ Hlang Hws Hd HX)).
  - cbn [expand Re.group Nat.eqb]. now rewrite append_nil_r.
  - discriminate.
  - reflexivity.
Qed.

Lemma sub_loop_without_backtick repl fuel :
  forall s,
    contains backtick s = false ->
    sub_loop code_block_pattern repl fuel s = s.
Proof.
  induction fuel as [|fuel IH]; intros s Hs; [reflexivity|].
  cbn [sub_loop]. destruct s as [|d s].
  - reflexivity.
  - cbn [contains] in Hs. apply Bool.orb_false_elim in Hs.
    destruct Hs as [Hd Hs]. apply Ascii.eqb_neq in Hd.
    replace (match_at code_block_pattern (String d s))
      with (@None (string * groups)).
    + now rewrite IH.
    + symmetry. unfold match_at, code_block_pattern.
      rewrite exec_cat. now apply fence_mismatch.
Qed.

Lemma sub_without_backtick repl s :
  contains backtick s = false -> sub code_block_pattern repl s = s.
Proof. apply sub_loop_without_backtick. Qed.

(** **** Stripping *)

Lemma rstrip_all_space ws : all_space ws = true -> rstrip ws = "".
Proof.
  induction ws as [|c ws IH]; [reflexivity|].
  cbn [all_space rstrip]. intros H. apply andb_prop in H.
  destruct H as [Hc Hws]. now rewrite (IH Hws), Hc.
Qed.

Lemma rstrip_app_space a ws :
  all_space ws = true -> rstrip (a ++ ws) = rstrip a.
Proof.
  intros Hws. induction a as [|c a IH].
  - now apply rstrip_all_space.
  - cbn [append rstrip]. now rewrite IH.
Qed.

Lemma rstrip_chomp s : rstrip (chomp s) = rstrip s.
Proof.
  induction s as [|c s IH]; [reflexivity|].
  destruct s as [|y Y].
  - cbn [chomp]. destruct (Ascii.eqb_spec c LF) as [->|_]; reflexivity.
  - change (chomp (String c (String y Y)))
      with (String c (chomp (String y Y))).
    cbn [rstrip] in *. now rewrite IH.
Qed.

Lemma lstrip_chomp d Y :
  isspace d = false -> lstrip (chomp (String d Y)) = chomp (String d Y).
Proof.
  intros Hd. destruct Y as [|y Y].
  - cbn [chomp]. destruct (Ascii.eqb_spec d LF) as [->|_];
      [discriminate Hd|]. cbn [lstrip]. now rewrite Hd.
  - change (chomp (String d (String y Y)))
      with (String d (chomp (String y Y))).
    cbn [lstrip]. now rewrite Hd.
Qed.

Lemma contains_app c a b :
  contains c (a ++ b) = contains c a || contains c b.
Proof.
  induction a as [|x a IH]; [reflexivity|].
  cbn [append contains]. now rewrite IH, Bool.orb_assoc.
Qed.

Lemma all_space_no_backtick ws :
  all_space ws = true -> contains backtick ws = false.
Proof.
  induction ws as [|c ws IH]; [reflexivity|].
  cbn [all_space contains]. intros H. apply andb_prop in H.
  destruct H as [Hc Hws]. rewrite (IH Hws), Bool.orb_false_r.
  apply Ascii.eqb_neq. intros <-. discriminate Hc.
Qed.

(** What the decoder is handed for a code block that holds the text of
    a structure without backticks: that text. *)
Lemma cleaned_code_block lang ws1 body ws2 :
  known_tag lang ->
  all_space ws1 = true ->
  all_space ws2 = true ->
  structure_text body ->
  contains backtick body = false ->
  strip (sub code_block_pattern [Backref 1]
             (fence ++ lang ++ ws1 ++ body ++ ws2 ++ fence))
  = body.
Proof.
  intros Hlang Hws1 Hws2 [[Y0 Hshape] Hr] Hb.
  assert (Hd : exists d, (d = "{"%char \/ d = "["%char) /\ body = String d Y0).
  { destruct Hshape as [->| ->];
      [exists "{"%char|exists "["%char]; split; auto. }
  destruct Hd as (d & Hd & ->).
  assert (HX : contains backtick (String d (Y0 ++ ws2)) = false).
  { change (String d (Y0 ++ ws2)) with (String d Y0 ++ ws2).
    now rewrite contains_app, Hb, (all_space_no_backtick _ Hws2). }
  replace (String d Y0 ++ ws2 ++ fence) with (String d (Y0 ++ ws2) ++ fence)
    by (cbn [append]; now rewrite append_assoc).
  rewrite (sub_code_block _ _ _ _ Hlang Hws1 Hd HX).
  unfold strip. rewrite lstrip_chomp by (now destruct Hd as [->| ->]).
  rewrite rstrip_chomp.
  change (String d (Y0 ++ ws2)) with (String d Y0 ++ ws2).
  now rewrite rstrip_app_space.
Qed.

Lemma cleaned_plain body :
  structure_text body ->
  contains backtick body = false ->
  strip (sub code_block_pattern [Backref 1] body) = body.
Proof.
  intros [[Y0 Hshape] Hr] Hb. rewrite (sub_without_backtick _ _ Hb).
  unfold strip.
  replace (lstrip body) with body; [exact Hr|].
  destruct Hshape as [->| ->]; reflexivity.
Qed.

(** **** The claims *)

Section Decoder.

Variable value : Type.
Variable none : value.
Variable json_loads : string -> result value.

Local Abbreviation clean_llm_json := (clean_llm_json value none json_loads).

Lemma falsy_str text : falsy (PyStr text) = true <-> text = "".
Proof.
  destruct text; simpl; split; intros H; try reflexivity; discriminate.
Qed.

Lemma clean_llm_json_str text :
  text <> "" ->
  clean_llm_json (PyStr text)
  = match json_loads (strip (sub code_block_pattern [Backref 1] text)) with
    | Return v => Return v
    | Raise e =>
        if is_JSONDecodeError e then
          match find_structure text with
          | Some m =>
              match json_loads m with
              | Return v => Return v
              | Raise e' =>
                  if is_JSONDecodeError e' then Return none else Raise e'
              end
          | None => Return none
          end
        else Raise e
    end.
Proof.
  intros Hne. unfold LlmResponseHandling.clean_llm_json.
  destruct (falsy (PyStr text)) eqn:Hf.
  - apply falsy_str in Hf. contradiction.
  - rewrite search_structure.
    now destruct (find_structure text).
Qed.

(** A code block, with or without a known language tag, around the text
    of a JSON object or array that holds no backtick: the decoder is
    handed that text, and what it returns is returned. *)
Lemma clean_llm_json_code_block lang ws1 body ws2 v :
  known_tag lang ->
  all_space ws1 = true ->
  all_space ws2 = true ->
  structure_text body ->
  contains backtick body = false ->
  json_loads body = Return v ->
  clean_llm_json (PyStr (fence ++ lang ++ ws1 ++ body ++ ws2 ++ fence))
  = Return v.
Proof.
  intros Hlang Hws1 Hws2 Hbody Hb Hv.
  rewrite clean_llm_json_str by discriminate.
  now rewrite (cleaned_code_block _ _ _ _ Hlang Hws1 Hws2 Hbody Hb), Hv.
Qed.

(** The same text on its own. *)
Lemma clean_llm_json_plain body v :
  structure_text body ->
  contains backtick body = false ->
  json_loads body = Return v ->
  clean_llm_json (PyStr body) = Return v.
Proof.
  intros Hbody Hb Hv.
  rewrite clean_llm_json_str.
  - now rewrite (cleaned_plain _ Hbody Hb), Hv.
  - destruct Hbody as [[Y0 [->| ->]] _]; discriminate.
Qed.


End Decoder.



(** C9 fails on the code: a pair of triple backticks inside the JSON
    text is taken for a code fence and removed before decoding.  The
    array holding the string [```a```] decodes to that array, but
    [clean_llm_json] returns the array holding "a", for the plain text
    and for the text wrapped in a json code block alike; an object whose
    field holds a code block loses the backticks of that field. *)
Theorem C9_backticks_inside_json_are_removed :
  json_loads backticked_array
  = Return (JArray [JString (codes (fence ++ "a" ++ fence))]) /\
  clean_llm_json value JNull json_loads (PyStr backticked_array)
  = Return (JArray [JString (codes "a")]) /\
  clean_llm_json value JNull json_loads
                 (PyStr (fenced "json" backticked_array))
  = Return (JArray [JString (codes "a")]) /\
  json_loads answer_with_code
  = Return (JObject [(codes "answer",
                      JString (codes (fence ++ "python" ++ String LF
                                        ("print(1)" ++ String LF fence))))])
  /\
  clean_llm_json value JNull json_loads (PyStr answer_with_code)
  = Return (JObject [(codes "answer",
                      JString (codes ("python" ++ String LF
                                        ("print(1)" ++ String LF ""))))]).
Proof. repeat split. Qed.

(** The same, whatever the decoder: the text it is handed is the array
    holding "a". *)
Lemma backticked_array_cleaned :
  strip (sub code_block_pattern [Backref 1] backticked_array)
  = "[" ++ quoted "a" ++ "]" /\
  strip (sub code_block_pattern [Backref 1] (fenced "json" backticked_array))
  = "[" ++ quoted "a" ++ "]".
Proof. split; reflexivity. Qed.

(** **** Fenced and plain JSON, run *)

Example run_fenced_object :
  clean_llm_json value JNull json_loads
                 (PyStr (fenced "json" ("{" ++ quoted "a" ++ ": [1, true]}")))
  = Return (JObject [(codes "a", JArray [JInt 1; JBool true])]).
Proof. reflexivity. Qed.

Example run_plain_array :
  clean_llm_json value JNull json_loads (PyStr " [null, -3] ")
  = Return (JArray [JNull; JInt (-3)]).
Proof. reflexivity. Qed.

Example run_response_objects :
  clean_llm_json value JNull json_loads (WithText true (fenced "" "[1]"))
  = Return (JArray [JInt 1]) /\
  clean_llm_json value JNull json_loads (WithContent true "x {} y")
  = Return (JObject []) /\
  clean_llm_json value JNull json_loads (OtherObject true "<object>")
  = Return JNull /\
  clean_llm_json value JNull json_loads (OtherObject false "[]")
  = Return JNull.
Proof. repeat split. Qed.

End LlmResponseHandlingSpec.

(* ================================================================= *)
(** * Further properties of [speech_to_text] *)

Module VoiceAgentExtra.

Import VoiceAgent VoiceAgentMore VoiceAgentSpec.

Section Proofs.

Variable St : Type.
Variable recognize :
  St -> RecognitionConfig -> bytes -> result RecognizeResponse * St.

Local Abbreviation World := (World St).
Local Abbreviation after := (@after St).
Local Abbreviation for_pair := (for_pair St recognize).
Local Abbreviation fallback_sweep := (fallback_sweep St recognize).
Local Abbreviation fallback_attempt := (fallback_attempt St recognize).
Local Abbreviation speech_to_text := (speech_to_text St recognize).
Local Abbreviation run_calls := (run_calls St recognize).

Local Abbreviation configs_of pairs :=
  (map (fun p : AudioEncoding * Z => fallback_config (fst p) (snd p)) pairs).

(** **** The calls of a run *)

Lemma Forall_firstn {A} (P : A -> Prop) n l :
  Forall P l -> Forall P (firstn n l).
Proof.
  intros H. revert n. induction H as [|x l Hx _ IH]; intros [|n]; simpl;
    constructor; auto.
Qed.

Lemma run_calls_audio cs audio s :
  Forall (fun c => call_audio c = audio) (fst (run_calls cs audio s)).
Proof.
  revert s; induction cs as [|c cs IH]; intros s; [constructor|].
  destruct (recognize s c audio) as [o s'] eqn:E.
  rewrite (run_calls_cons _ _ _ _ _ _ _ _ E). simpl.
  constructor; [reflexivity|apply IH].
Qed.

Lemma for_pair_prefix pairs audio (w : World) :
  exists n s,
    n <= length pairs /\
    snd (for_pair pairs audio w)
    = after w (firstn n (fst (run_calls (configs_of pairs) audio (stt w)))) s.
Proof.
  revert w; induction pairs as [|[enc rate] pairs IH]; intros w.
  - exists 0, (stt w). split; [lia|]. simpl. now rewrite after_nil.
  - cbn [map fst snd].
    destruct (recognize (stt w) (fallback_config enc rate) audio)
      as [o s'] eqn:E.
    rewrite (run_calls_cons _ _ _ _ _ _ _ _ E). cbn [fst snd].
    cbn [VoiceAgent.for_pair fst snd]. unfold bind.
    rewrite (fallback_attempt_eq _ _ _ _ _ _ _ _ E).
    destruct (attempt_transcript o) as [t|].
    + exists 1, s'. split; [simpl; lia|]. reflexivity.
    + destruct (IH (after w [mkcall (fallback_config enc rate) audio o] s'))
        as (n & s & Hn & Heq).
      exists (S n), s. split; [simpl; lia|].
      rewrite Heq, after_after. reflexivity.
Qed.

Lemma fallback_sweep_prefix audio (w : World) :
  exists n s,
    n <= 16 /\
    snd (fallback_sweep audio w)
    = after w (firstn n (fst (run_calls sweep_configs audio (stt w)))) s.
Proof.
  destruct (for_pair_prefix sweep_pairs audio w) as (n & s & Hn & Heq).
  exists n, s. split; [exact Hn|].
  rewrite fallback_sweep_eq.
  destruct (for_pair sweep_pairs audio w) as [[[t|]|e] w'];
    cbn [snd] in *; exact Heq.
Qed.

(** The shape of the calls of one invocation on a readable file. *)
Lemma speech_to_text_call_shape path (w : World) content :
  files w path = Some content ->
  exists cs n,
    calls (snd (speech_to_text path w)) = (calls w ++ cs)%list /\
    n <= 16 /\
    (map call_config cs
     = primary_config (lower (snd (splitext path))) :: firstn n sweep_configs
     \/
     map call_config cs
     = primary_config (lower (snd (splitext path))) :: alternative_config
         :: firstn n sweep_configs) /\
    Forall (fun c => call_audio c = content) cs.
Proof.
  intros Hf.
  set (config := primary_config (lower (snd (splitext path)))).
  destruct (recognize (stt w) config content) as [o1 s1] eqn:E1.
  destruct (recognize s1 alternative_config content) as [o2 s2] eqn:E2.
  pose proof (speech_to_text_cases _ _ _ _ _ _ _ _ _ Hf E1 E2) as Hc.
  cbv zeta in Hc. fold config in Hc.
  assert (Hsweep1 :
    exists cs n,
      calls (snd (fallback_sweep content
                    (after w [mkcall config content o1] s1)))
      = (calls w ++ cs)%list /\ n <= 16 /\
      map call_config cs = config :: firstn n sweep_configs /\
      Forall (fun c => call_audio c = content) cs).
  { destruct (fallback_sweep_prefix content
                (after w [mkcall config content o1] s1))
      as (n & s & Hn & ->).
    eexists (_ :: _), n. cbn [calls VoiceAgent.after].
    rewrite <- app_assoc. split; [reflexivity|]. split; [exact Hn|].
    split.
    - cbn [map app call_config mkcall]. f_equal.
      rewrite <- firstn_map. f_equal. apply run_calls_configs.
    - constructor; [reflexivity|].
      apply Forall_firstn. apply run_calls_audio. }
  assert (Hsweep2 :
    exists cs n,
      calls (snd (fallback_sweep content
                    (after w [mkcall config content o1;
                              mkcall alternative_config content o2] s2)))
      = (calls w ++ cs)%list /\ n <= 16 /\
      map call_config cs
      = config :: alternative_config :: firstn n sweep_configs /\
      Forall (fun c => call_audio c = content) cs).
  { destruct (fallback_sweep_prefix content
                (after w [mkcall config content o1;
                          mkcall alternative_config content o2] s2))
      as (n & s & Hn & ->).
    eexists (_ :: _ :: _), n. cbn [calls VoiceAgent.after].
    rewrite <- app_assoc. split; [reflexivity|]. split; [exact Hn|].
    split.
    - cbn [map app call_config mkcall]. do 2 f_equal.
      rewrite <- firstn_map. f_equal. apply run_calls_configs.
    - constructor; [reflexivity|]. constructor; [reflexivity|].
      apply Forall_firstn. apply run_calls_audio. }
  assert (Hone :
    exists cs n,
      calls (after w [mkcall config content o1] s1) = (calls w ++ cs)%list /\
      n <= 16 /\
      map call_config cs = config :: firstn n sweep_configs /\
      Forall (fun c => call_audio c = content) cs).
  { exists [mkcall config content o1], 0. repeat split; try lia.
    now constructor. }
  assert (Htwo :
    exists cs n,
      calls (after w [mkcall config content o1;
                      mkcall alternative_config content o2] s2)
      = (calls w ++ cs)%list /\ n <= 16 /\
      map call_config cs
      = config :: alternative_config :: firstn n sweep_configs /\
      Forall (fun c => call_audio c = content) cs).
  { exists [mkcall config content o1; mkcall alternative_config content o2], 0.
    repeat split; try lia. now repeat constructor. }
  assert (L : forall W : World,
    (exists cs n,
       calls W = (calls w ++ cs)%list /\ n <= 16 /\
       map call_config cs = config :: firstn n sweep_configs /\
       Forall (fun c => call_audio c = content) cs) ->
    exists cs n,
      calls W = (calls w ++ cs)%list /\ n <= 16 /\
      (map call_config cs = config :: firstn n sweep_configs \/
       map call_config cs
       = config :: alternative_config :: firstn n sweep_configs) /\
      Forall (fun c => call_audio c = content) cs).
  { intros W (cs & n & H1 & H2 & H3 & H4). exists cs, n. auto. }
  assert (R : forall W : World,
    (exists cs n,
       calls W = (calls w ++ cs)%list /\ n <= 16 /\
       map call_config cs
       = config :: alternative_config :: firstn n sweep_configs /\
       Forall (fun c => call_audio c = content) cs) ->
    exists cs n,
      calls W = (calls w ++ cs)%list /\ n <= 16 /\
      (map call_config cs = config :: firstn n sweep_configs \/
       map call_config cs
       = config :: alternative_config :: firstn n sweep_configs) /\
      Forall (fun c => call_audio c = content) cs).
  { intros W (cs & n & H1 & H2 & H3 & H4). exists cs, n. auto. }
  rewrite Hc.
  destruct o1 as [r1|e]; [|now apply L].
  destruct (has_results r1).
  - destruct (join_transcripts r1); cbn [snd]; now apply L.
  - destruct o2 as [r2|e]; [|now apply R].
    destruct (has_results r2); cbn [snd]; [|now apply R].
    destruct (join_transcripts r2); cbn [snd]; now apply R.
Qed.

Lemma In_firstn {A} (x : A) n l : In x (firstn n l) -> In x l.
Proof.
  revert n; induction l as [|y l IH]; intros [|n]; simpl; try tauto.
  intros [H|H]; [now left|right; eauto].
Qed.

Lemma configs_share_options ext :
  Forall common_options
         (primary_config ext :: alternative_config :: sweep_configs).
Proof.
  unfold primary_config. destruct (ext =? ".webm");
    repeat constructor.
Qed.

Lemma speech_to_text_no_call path (w : World) :
  files w path = None -> calls (snd (speech_to_text path w)) = calls w.
Proof. intros Hf. now rewrite (speech_to_text_missing _ _ _ _ Hf). Qed.

Lemma not_well_formed_raises r :
  ~ well_formed r -> exists e, join_transcripts r = Raise e.
Proof.
  intros H. destruct (join_transcripts r) as [t|e] eqn:E; [|now exists e].
  apply join_transcripts_return in E. now destruct E.
Qed.

Lemma unusable_no_transcript o : unusable o -> attempt_transcript o = None.
Proof.
  destruct o as [r|e]; simpl; [|reflexivity].
  intros [Hr|Hwf].
  - apply has_results_false in Hr. now rewrite Hr.
  - destruct (has_results r); [|reflexivity].
    destruct (not_well_formed_raises _ Hwf) as [e ->]. reflexivity.
Qed.

(** *** The properties *)

(** X1.  One invocation calls the recognizer at most eighteen times and
    in a fixed order: the primary configuration, then possibly the
    WEBM_OPUS one, then a prefix of the sixteen sweep configurations.
    When the file cannot be opened it calls it not at all, and earlier
    entries of the call log are kept. *)
Theorem X1_calls_bounded_and_ordered path (w : World) :
  exists cs,
    calls (snd (speech_to_text path w)) = (calls w ++ cs)%list /\
    length cs <= 18 /\
    (files w path = None -> cs = []) /\
    (files w path <> None ->
     exists n,
       n <= 16 /\
       (map call_config cs
        = primary_config (lower (snd (splitext path)))
            :: firstn n sweep_configs
        \/
        map call_config cs
        = primary_config (lower (snd (splitext path)))
            :: alternative_config :: firstn n sweep_configs)).
Proof.
  destruct (files w path) as [content|] eqn:Hf.
  - destruct (speech_to_text_call_shape _ _ _ Hf)
      as (cs & n & Hcalls & Hn & Hshape & _).
    exists cs. split; [exact Hcalls|].
    split.
    + rewrite <- (length_map call_config).
      destruct Hshape as [-> | ->]; cbn [length]; rewrite length_firstn; lia.
    + split; [discriminate|]. intros _. now exists n.
  - exists []. rewrite app_nil_r.
    split; [now apply speech_to_text_no_call|].
    split; [simpl; lia|]. split; [reflexivity|]. now intros H.
Qed.

(** X2.  Every call of an invocation is made on the bytes read from the
    file, and with language en-US, automatic punctuation, the enhanced
    model and model "latest_long", whichever path the attempts take. *)
Theorem X2_every_call_on_file_bytes_with_common_options
        path (w : World) cs c :
  calls (snd (speech_to_text path w)) = (calls w ++ cs)%list ->
  In c cs ->
  files w path = Some (call_audio c) /\ common_options (call_config c).
Proof.
  intros Hcalls Hin.
  destruct (files w path) as [content|] eqn:Hf.
  - destruct (speech_to_text_call_shape _ _ _ Hf)
      as (cs' & n & Hcalls' & _ & Hshape & Haudio).
    rewrite Hcalls in Hcalls'. apply app_inv_head in Hcalls'. subst cs'.
    split.
    + f_equal. symmetry. revert c Hin. now apply Forall_forall.
    + pose proof (configs_share_options (lower (snd (splitext path)))) as Hall.
      rewrite Forall_forall in Hall. apply Hall.
      apply (in_map call_config) in Hin.
      destruct Hshape as [E|E]; rewrite E in Hin.
      * destruct Hin as [<-|Hin]; [now left|].
        right; right. now apply In_firstn in Hin.
      * destruct Hin as [<-|[<-|Hin]]; [now left|now right; left|].
        right; right. now apply In_firstn in Hin.
  - rewrite (speech_to_text_no_call _ _ Hf) in Hcalls.
    apply (f_equal (@length call)) in Hcalls.
    rewrite length_app in Hcalls.
    destruct cs; [contradiction|simpl in Hcalls; lia].
Qed.

(** X3.  A response with segments one of which carries no alternative
    makes the join raise [IndexError] inside the guarded block: whether
    it comes from the primary or from the WEBM_OPUS call, none of its
    text is returned and the fallback sweep runs. *)
Theorem X3_segment_without_alternative_enters_sweep
        path (w : World) content o1 s1 o2 s2 :
  files w path = Some content ->
  recognize (stt w) (primary_config (lower (snd (splitext path)))) content
  = (o1, s1) ->
  recognize s1 alternative_config content = (o2, s2) ->
  let config := primary_config (lower (snd (splitext path))) in
  let c1 := mkcall config content o1 in
  let c2 := mkcall alternative_config content o2 in
  (forall r1, o1 = Return r1 -> results r1 <> [] -> ~ well_formed r1 ->
     speech_to_text path w = fallback_sweep content (after w [c1] s1)) /\
  (forall r1 r2, o1 = Return r1 -> results r1 = [] ->
     o2 = Return r2 -> results r2 <> [] -> ~ well_formed r2 ->
     speech_to_text path w = fallback_sweep content (after w [c1; c2] s2)).
Proof.
  intros Hf E1 E2 config c1 c2.
  pose proof (speech_to_text_cases _ _ _ _ _ _ _ _ _ Hf E1 E2) as Hc.
  cbv zeta in Hc. fold config c1 c2 in Hc.
  split.
  - intros r1 -> Hr Hwf. rewrite Hc.
    apply has_results_true in Hr. rewrite Hr.
    destruct (not_well_formed_raises _ Hwf) as [e ->]. reflexivity.
  - intros r1 r2 -> Hr1 -> Hr2 Hwf. rewrite Hc.
    apply has_results_false in Hr1. rewrite Hr1.
    apply has_results_true in Hr2. rewrite Hr2.
    destruct (not_well_formed_raises _ Hwf) as [e ->]. reflexivity.
Qed.

(** X4.  Inside the sweep an attempt that raises, returns no segment, or
    returns a segment without alternative is passed over: the sweep
    returns the joined transcript of the first attempt whose response
    has segments that all carry an alternative, after exactly the calls
    up to that attempt. *)
Theorem X4_sweep_passes_over_unusable_attempts audio (w : World) k c r :
  nth_error (fst (run_calls sweep_configs audio (stt w))) k = Some c ->
  call_outcome c = Return r ->
  results r <> [] ->
  well_formed r ->
  (forall i c', i < k ->
     nth_error (fst (run_calls sweep_configs audio (stt w))) i = Some c' ->
     unusable (call_outcome c')) ->
  fst (fallback_sweep audio w)
  = Return (join " " (map first_text (results r))) /\
  calls (snd (fallback_sweep audio w))
  = (calls w ++ firstn (S k) (fst (run_calls sweep_configs audio (stt w))))%list.
Proof.
  intros Hk Hc Hr Hwf Hlt.
  assert (Ht : attempt_transcript (call_outcome c)
               = Some (join " " (map first_text (results r)))).
  { apply attempt_transcript_some. exists r. repeat split; trivial.
    now apply join_transcripts_well_formed. }
  rewrite fallback_sweep_eq.
  rewrite (for_pair_first _ _ sweep_pairs audio w k c _ Hk Ht).
  - split; reflexivity.
  - intros i c' Hi Hc'. apply unusable_no_transcript. eauto.
Qed.

End Proofs.

(** *** The properties at concrete stubs *)

Lemma X2_witness :
  files (world0 tt) "note.wav" = Some audio0 /\
  common_options (fallback_config MP3 8000).
Proof.
  apply (X2_every_call_on_file_bytes_with_common_options
           unit raising_stub "note.wav" (world0 tt)
           (calls (snd (speech_to_text unit raising_stub "note.wav"
                                       (world0 tt))))
           (mkcall (fallback_config MP3 8000) audio0 (Raise boom))).
  - reflexivity.
  - do 16 right. left. reflexivity.
Defined.

Lemma X3_witness :
  speech_to_text _ script_stub "note.wav"
                 (world0 [Return broken_response; Return (response_of ["kept"])])
  = (Return "kept",
     after _ (world0 [Return broken_response; Return (response_of ["kept"])])
       [ mkcall default_config audio0 (Return broken_response);
         mkcall (fallback_config LINEAR16 48000) audio0
                (Return (response_of ["kept"])) ] []).
Proof.
  destruct (X3_segment_without_alternative_enters_sweep
              _ script_stub "note.wav"
              (world0 [Return broken_response; Return (response_of ["kept"])])
              audio0 (Return broken_response) [Return (response_of ["kept"])]
              (Return (response_of ["kept"])) []
              eq_refl eq_refl eq_refl) as [Hprimary _].
  rewrite (Hprimary broken_response eq_refl).
  - reflexivity.
  - discriminate.
  - intros Hwf. inversion Hwf as [|? ? _ Hrest]. inversion Hrest as [|? ? Hbad _].
    now apply Hbad.
Defined.

Lemma X4_witness :
  fst (fallback_sweep _ script_stub audio0
         (world0 [ Raise boom; Return broken_response; Return (response_of []);
                   Return (response_of ["at"; "last"]) ]))
  = Return "at last".
Proof.
  apply (X4_sweep_passes_over_unusable_attempts
           _ script_stub audio0
           (world0 [ Raise boom; Return broken_response;
                     Return (response_of []);
                     Return (response_of ["at"; "last"]) ])
           3 (mkcall (fallback_config LINEAR16 8000) audio0
                     (Return (response_of ["at"; "last"])))
           (response_of ["at"; "last"])).
  - reflexivity.
  - reflexivity.
  - discriminate.
  - repeat constructor; discriminate.
  - intros i c' Hi Hc'.
    destruct i as [|[|[|i]]]; try lia; injection Hc' as <-; simpl.
    + exact I.
    + right. intros Hwf. inversion Hwf as [|? ? _ Hrest].
      inversion Hrest as [|? ? Hbad _]. now apply Hbad.
    + now left.
Defined.

End VoiceAgentExtra.

(* ================================================================= *)
(** * Further properties of [clean_llm_json] *)

Module LlmResponseHandlingExtra.

Import Re Json LlmResponseHandling LlmResponseHandlingSpec.

Lemma split_last_at c a b :
  contains c b = false ->
  split_last c (a ++ String c b) = Some (a ++ String c "", b).
Proof.
  intros Hb.
  assert (Hnone : split_last c b = None).
  { induction b as [|d b IH]; [reflexivity|].
    cbn [contains] in Hb. apply Bool.orb_false_elim in Hb.
    destruct Hb as [Hd Hb]. cbn [split_last]. now rewrite (IH Hb), Hd. }
  induction a as [|x a IH]; cbn [append split_last].
  - now rewrite Hnone, Ascii.eqb_refl.
  - now rewrite IH.
Qed.

Lemma find_structure_embedded pre d inner e post :
  (d = "{"%char /\ e = "}"%char) \/ (d = "["%char /\ e = "]"%char) ->
  contains "{" pre = false ->
  contains "[" pre = false ->
  contains e post = false ->
  find_structure (pre ++ String d (inner ++ String e "") ++ post)
  = Some (String d (inner ++ String e "")).
Proof.
  intros Hde Hb Hs Hpost.
  induction pre as [|x pre IH].
  - cbn [append find_structure]. rewrite append_assoc. cbn [append].
    unfold structure_tail.
    destruct Hde as [[-> ->]|[-> ->]]; cbn [Ascii.eqb Bool.eqb andb];
      now rewrite (split_last_at _ inner post Hpost).
  - cbn [contains] in Hb, Hs.
    apply Bool.orb_false_elim in Hb. destruct Hb as [Hx1 Hb].
    apply Bool.orb_false_elim in Hs. destruct Hs as [Hx2 Hs].
    cbn [append find_structure]. unfold structure_tail.
    rewrite (Ascii.eqb_sym x "{"), Hx1, (Ascii.eqb_sym x "["), Hx2.
    now apply IH.
Qed.

Section Decoder.

Variable value : Type.
Variable none : value.
Variable json_loads : string -> result value.

Local Abbreviation clean_llm_json := (clean_llm_json value none json_loads).

(** X5.  A markdown code block, tagged json, javascript or not at all,
    around the text of a JSON object or array that holds no backtick,
    with any whitespace between the fences and the text: the decoder is
    handed exactly that text and its value is returned. *)
Theorem X5_code_block_around_json lang ws1 body ws2 v :
  known_tag lang ->
  all_space ws1 = true ->
  all_space ws2 = true ->
  structure_text body ->
  contains backtick body = false ->
  json_loads body = Return v ->
  clean_llm_json (PyStr (fence ++ lang ++ ws1 ++ body ++ ws2 ++ fence))
  = Return v.
Proof. apply clean_llm_json_code_block. Qed.

(** X6.  The text of a JSON object or array that holds no backtick and
    has no whitespace around it is handed to the decoder unchanged, and
    its value is returned. *)
Theorem X6_plain_json_without_backtick body v :
  structure_text body ->
  contains backtick body = false ->
  json_loads body = Return v ->
  clean_llm_json (PyStr body) = Return v.
Proof. apply clean_llm_json_plain. Qed.

(** X7.  JSON embedded in free text is recovered by the fallback: when
    the text as a whole does not decode, and the text before the
    structure holds no "{" or "[" and the text after it none of its
    closing character, the structure from its opening to its closing
    character is decoded and its value returned. *)
Theorem X7_json_embedded_in_text pre d inner e post err v :
  (d = "{"%char /\ e = "}"%char) \/ (d = "["%char /\ e = "]"%char) ->
  contains "{" pre = false ->
  contains "[" pre = false ->
  contains e post = false ->
  json_loads (strip (sub code_block_pattern [Backref 1]
                         (pre ++ String d (inner ++ String e "") ++ post)))
  = Raise err ->
  is_JSONDecodeError err = true ->
  json_loads (String d (inner ++ String e "")) = Return v ->
  clean_llm_json (PyStr (pre ++ String d (inner ++ String e "") ++ post))
  = Return v.
Proof.
  intros Hde Hb Hs Hpost Hwhole Herr Hv.
  rewrite clean_llm_json_str.
  - rewrite Hwhole, Herr.
    now rewrite (find_structure_embedded _ _ _ _ _ Hde Hb Hs Hpost), Hv.
  - destruct pre; discriminate.
Qed.

End Decoder.

Lemma X5_witness :
  clean_llm_json value JNull json_loads
                 (PyStr (fence ++ "javascript" ++ "  " ++ "[1, [2]]"
                               ++ String LF " " ++ fence))
  = Return (JArray [JInt 1; JArray [JInt 2]]).
Proof.
  apply (X5_code_block_around_json value JNull json_loads
           "javascript" "  " "[1, [2]]" (String LF " ")).
  - right; right; reflexivity.
  - reflexivity.
  - reflexivity.
  - split; [exists "1, [2]]"; now right|reflexivity].
  - reflexivity.
  - reflexivity.
Defined.

Lemma X6_witness :
  clean_llm_json value JNull json_loads (PyStr "{ }") = Return (JObject []).
Proof.
  apply (X6_plain_json_without_backtick value JNull json_loads "{ }").
  - split; [exists " }"; now left|reflexivity].
  - reflexivity.
  - reflexivity.
Defined.

Lemma X7_witness :
  clean_llm_json value JNull json_loads
                 (PyStr "Sure, the list is [1, [2]] as asked.")
  = Return (JArray [JInt 1; JArray [JInt 2]]).
Proof.
  apply (X7_json_embedded_in_text value JNull json_loads
           "Sure, the list is " "[" "1, [2]" "]" " as asked."
           (JSONError "Expecting value")).
  - right. split; reflexivity.
  - reflexivity.
  - reflexivity.
  - reflexivity.
  - reflexivity.
  - reflexivity.
  - reflexivity.
Defined.

End LlmResponseHandlingExtra.

(* ================================================================= *)
(** * Properties of [VoiceAgent.process] *)

Module VoiceAgentProcessSpec.

Import VoiceAgent VoiceAgentSpec VoiceAgentProcess.

Section Proofs.

Variable St : Type.
Variable recognize :
  St -> RecognitionConfig -> bytes -> result RecognizeResponse * St.
Variable Response : Type.
Variable _create_response : list (string * string) -> option string -> Response.
Variable _handle_error : exn -> Response.
Variable text_to_speech : string -> M St string.
Variable path_exists : string -> bool.
Variable getsize : string -> result Z.

Local Abbreviation World := (World St).
Local Abbreviation speech_to_text := (speech_to_text St recognize).
Local Abbreviation process :=
  (process St recognize Response _create_response _handle_error
           text_to_speech path_exists getsize).

(** The body of the transcribe branch once a path is there. *)
Lemma process_transcribe input_data path (w : World) :
  input_data "action" = Some "transcribe" ->
  py_or (input_data "audio_file_path") (input_data "audio_data")
  = Some path ->
  path <> "" ->
  path_exists path = true ->
  process input_data w
  = match getsize path with
    | Raise e => (Return (_handle_error e), w)
    | Return _ =>
        match speech_to_text path w with
        | (Return t, w') =>
            (Return (_create_response [("transcript", t)] None), w')
        | (Raise e, w') => (Return (_handle_error e), w')
        end
    end.
Proof.
  intros Hmode Hpath Hne Hex.
  unfold VoiceAgentProcess.process, try_except.
  rewrite Hmode, Hpath. cbn [is_str truthy str_of].
  rewrite String.eqb_refl.
  replace (path =? "") with false by (symmetry; now apply String.eqb_neq).
  cbn [negb]. rewrite Hex. cbn [negb].
  unfold bind, lift, ret.
  destruct (getsize path) as [size|e]; [|reflexivity].
  now destruct (speech_to_text path w) as [[t|e] w'].
Qed.

(** X9.  Four kinds of request are refused before anything is touched.
    A request to transcribe without path gets the error "Missing audio
    file path" ([audio_file_path] is used when it is a non-empty
    string, [audio_data] otherwise); one with a path that does not
    exist gets "Audio file not found: <path>"; a text-to-speech request
    without text gets "Missing text"; and an action other than
    transcribe and text-to-speech gets "Invalid mode".  In all four
    cases the response has the status "error", the recognizer is not
    called, [text_to_speech] is not called, and the files and the call
    log are as before. *)
Theorem X9_process_guards input_data (w : World) :
  (input_data "action" = Some "transcribe" ->
   truthy (py_or (input_data "audio_file_path") (input_data "audio_data"))
   = false ->
   process input_data w
   = (Return (_create_response [("error", "Missing audio file path")]
                               (Some "error")), w)) /\
  (forall path,
     input_data "action" = Some "transcribe" ->
     py_or (input_data "audio_file_path") (input_data "audio_data")
     = Some path ->
     path <> "" ->
     path_exists path = false ->
     process input_data w
     = (Return (_create_response
                  [("error", "Audio file not found: " ++ path)]
                  (Some "error")), w)) /\
  (input_data "action" = Some "text-to-speech" ->
   truthy (input_data "text") = false ->
   process input_data w
   = (Return (_create_response [("error", "Missing text")] (Some "error")),
      w)) /\
  (is_str (input_data "action") "transcribe" = false ->
   is_str (input_data "action") "text-to-speech" = false ->
   process input_data w
   = (Return (_create_response [("error", "Invalid mode")] (Some "error")),
      w)).
Proof.
  split; [|split; [|split]].
  - intros Hmode Hp. unfold VoiceAgentProcess.process, try_except.
    rewrite Hmode. cbn [is_str]. rewrite String.eqb_refl, Hp. reflexivity.
  - intros path Hmode Hp Hne Hex.
    unfold VoiceAgentProcess.process, try_except.
    rewrite Hmode, Hp. cbn [is_str truthy str_of].
    rewrite String.eqb_refl.
    replace (path =? "") with false by (symmetry; now apply String.eqb_neq).
    cbn [negb]. rewrite Hex. reflexivity.
  - intros Hmode Ht. unfold VoiceAgentProcess.process, try_except.
    rewrite Hmode. cbn [is_str]. rewrite Ht. reflexivity.
  - intros H1 H2. unfold VoiceAgentProcess.process, try_except.
    rewrite H1, H2. reflexivity.
Qed.

(** X10.  A request to transcribe an existing, readable file returns
    the response built from the transcript that [speech_to_text]
    returns for that path, under the key "transcript" and with the
    default status, and leaves the world as [speech_to_text] does. *)
Theorem X10_process_returns_transcript input_data path content size
        (w : World) :
  input_data "action" = Some "transcribe" ->
  py_or (input_data "audio_file_path") (input_data "audio_data")
  = Some path ->
  path <> "" ->
  path_exists path = true ->
  getsize path = Return size ->
  files w path = Some content ->
  exists t,
    speech_to_text path w = (Return t, snd (speech_to_text path w)) /\
    process input_data w
    = (Return (_create_response [("transcript", t)] None),
       snd (speech_to_text path w)).
Proof.
  intros Hmode Hpath Hne Hex Hsize Hf.
  rewrite (process_transcribe _ _ _ Hmode Hpath Hne Hex), Hsize.
  destruct (speech_to_text_outcome _ recognize _ _ _ Hf)
    as (t & cs & s & Heq & _).
  exists t. rewrite Heq. split; reflexivity.
Qed.

(** X11.  A file that exists but cannot be measured or opened does not
    make [process] raise: the exception of [os.path.getsize], or the
    [OSError] that [speech_to_text] raises on opening the file, is
    handed to [_handle_error], and the recognizer is not called. *)
Theorem X11_process_absorbs_file_errors input_data path (w : World) :
  input_data "action" = Some "transcribe" ->
  py_or (input_data "audio_file_path") (input_data "audio_data")
  = Some path ->
  path <> "" ->
  path_exists path = true ->
  (forall e, getsize path = Raise e ->
     process input_data w = (Return (_handle_error e), w)) /\
  (forall size, getsize path = Return size -> files w path = None ->
     process input_data w
     = (Return (_handle_error (Exn OSError path)), w)).
Proof.
  intros Hmode Hpath Hne Hex.
  rewrite (process_transcribe _ _ _ Hmode Hpath Hne Hex).
  split.
  - intros e ->. reflexivity.
  - intros size -> Hf.
    now rewrite (speech_to_text_missing _ recognize _ _ Hf).
Qed.

End Proofs.

(** *** The properties at concrete requests *)

Lemma X10_witness :
  fst (process unit webm_only_stub plain_response pair error_response
               no_text_to_speech exists0 getsize0
               (transcribe_request "note.wav") (world1 tt))
  = Return ([("transcript", "good morning")], None).
Proof.
  destruct (X10_process_returns_transcript
              unit webm_only_stub plain_response pair error_response
              no_text_to_speech exists0 getsize0
              (transcribe_request "note.wav") "note.wav" audio0 4%Z (world1 tt)
              eq_refl eq_refl ltac:(discriminate) eq_refl eq_refl eq_refl)
    as (t & Ht & Hp).
  rewrite Hp. injection Ht as Ht. rewrite <- Ht. reflexivity.
Defined.

Lemma X11_witness :
  process unit webm_only_stub plain_response pair error_response
          no_text_to_speech exists0 getsize0
          (transcribe_request "folder") (world1 tt)
  = (Return ([("error", "folder")], Some "error"), world1 tt).
Proof.
  destruct (X11_process_absorbs_file_errors
              unit webm_only_stub plain_response pair error_response
              no_text_to_speech exists0 getsize0
              (transcribe_request "folder") "folder" (world1 tt)
              eq_refl eq_refl ltac:(discriminate) eq_refl)
    as [_ Hopen].
  apply (Hopen 4%Z); reflexivity.
Defined.

Example run_process_text_to_speech :
  fst (process unit webm_only_stub plain_response pair error_response
               no_text_to_speech exists0 getsize0
               (fun key => if key =? "action" then Some "text-to-speech"
                           else if key =? "text" then Some "hello" else None)
               (world1 tt))
  = Return ([("error", "text_to_speech")], Some "error").
Proof. reflexivity. Qed.

End VoiceAgentProcessSpec.

(* ================================================================= *)
(** * Properties of the voice routes *)

Module VoiceRoutesSpec.

Import VoiceRoutes LlmResponseHandling LlmResponseHandlingSpec.

(** *** [str.rfind] and [os.path.splitext] *)

Lemma rfind_from_absent c s : forall i acc,
  contains c s = false -> rfind_from c s i acc = acc.
Proof.
  induction s as [|d s IH]; intros i acc H; cbn [rfind_from]; [reflexivity|].
  cbn [contains] in H. apply Bool.orb_false_elim in H. destruct H as [Hd Hs].
  rewrite Hd. now apply IH.
Qed.

Lemma rfind_from_lb c s : forall i acc lb,
  (lb <= acc)%Z -> (lb <= i)%Z -> (lb <= rfind_from c s i acc)%Z.
Proof.
  induction s as [|d s IH]; intros i acc lb Ha Hi; cbn [rfind_from]; [exact Ha|].
  apply IH; [destruct (Ascii.eqb c d); lia | lia].
Qed.

Lemma rfind_from_app c a b : forall i acc,
  rfind_from c (a ++ String c b) i acc
  = rfind_from c b (i + Z.of_nat (String.length a) + 1)
               (i + Z.of_nat (String.length a)).
Proof.
  induction a as [|x a IH]; intros i acc.
  - cbn [append rfind_from String.length]. rewrite Ascii.eqb_refl.
    f_equal; lia.
  - cbn [append rfind_from String.length]. rewrite IH. f_equal; lia.
Qed.

Lemma rfind_last c a b :
  contains c b = false ->
  rfind c (a ++ String c b) = Z.of_nat (String.length a).
Proof.
  intros H. unfold rfind. rewrite rfind_from_app.
  now rewrite rfind_from_absent.
Qed.

Lemma rfind_occurrence c a b :
  (Z.of_nat (String.length a) <= rfind c (a ++ String c b))%Z.
Proof.
  unfold rfind. rewrite rfind_from_app. apply rfind_from_lb; lia.
Qed.

Lemma contains_first c s :
  contains c s = true -> exists a b, s = a ++ String c b.
Proof.
  induction s as [|d s IH]; cbn [contains]; [discriminate|].
  destruct (Ascii.eqb c d) eqn:E.
  - intros _. apply Ascii.eqb_eq in E. subst d. now exists "", s.
  - cbn [orb]. intros H. destruct (IH H) as (a & b & ->).
    now exists (String d a), b.
Qed.

Lemma contains_last c s :
  contains c s = true ->
  exists a b, s = a ++ String c b /\ contains c b = false.
Proof.
  induction s as [|d s IH]; cbn [contains]; [discriminate|].
  destruct (contains c s) eqn:Hs.
  - intros _. destruct (IH eq_refl) as (a & b & -> & Hb).
    now exists (String d a), b.
  - rewrite Bool.orb_false_r. intros E. apply Ascii.eqb_eq in E. subst d.
    now exists "", s.
Qed.

Lemma substring_suffix (a b : string) :
  substring (String.length a) (String.length b) (a ++ b) = b.
Proof.
  induction a as [|x a IH]; cbn [String.length append substring].
  - pose proof (substring_prefix b "") as H.
    assert (E : b ++ "" = b) by (clear; induction b; simpl; congruence).
    now rewrite E in H.
  - exact IH.
Qed.

Lemma splitext_loop_some p d : forall n f r,
  splitext_loop p d f n = Some r ->
  r = (substring 0 d p, substring d (String.length p - d) p).
Proof.
  induction n as [|n IH]; intros f r; cbn [splitext_loop]; [discriminate|].
  destruct (negb _).
  - now intros [= <-].
  - apply IH.
Qed.

(** The extension [os.path.splitext] gives is empty, or a dot followed
    by characters that are neither dots nor separators. *)
Lemma splitext_extension (p : string) :
  snd (splitext p) = ""
  \/ exists b, snd (splitext p) = String "." b
               /\ contains "." b = false /\ contains "/" b = false.
Proof.
  unfold splitext.
  destruct (contains "." p) eqn:Hdot.
  - destruct (contains_last _ _ Hdot) as (a & b & -> & Hb).
    rewrite (rfind_last "." a b Hb).
    destruct (_ <? _)%Z eqn:Hlt; [|now left].
    destruct (splitext_loop _ _ _ _) as [r|] eqn:Hloop; [|now left].
    apply splitext_loop_some in Hloop. subst r. cbn [snd].
    right. exists b. rewrite Nat2Z.id.
    rewrite length_append, Nat.add_comm, Nat.add_sub.
    split; [apply (substring_suffix a (String "." b))|].
    split; [exact Hb|].
    destruct (contains "/" b) eqn:Hsl; [|reflexivity].
    exfalso. destruct (contains_first _ _ Hsl) as (x & y & ->).
    apply Z.ltb_lt in Hlt.
    pose proof (rfind_occurrence "/" (a ++ String "." x) y) as Hocc.
    replace ((a ++ String "." x) ++ String "/" y)
      with (a ++ String "." (x ++ String "/" y)) in Hocc.
    2:{ clear. induction a as [|c a IH]; simpl; [reflexivity|now rewrite IH]. }
    rewrite length_append in Hocc. cbn [String.length] in Hocc. lia.
  - unfold rfind at 2. rewrite (rfind_from_absent _ _ _ _ Hdot).
    assert (H : (-1 <= rfind "/" p)%Z) by (apply rfind_from_lb; lia).
    destruct (_ <? _)%Z eqn:Hlt; [apply Z.ltb_lt in Hlt; lia|now left].
Qed.

Lemma append_empty (a : string) : a ++ "" = a.
Proof. induction a as [|x a IH]; simpl; [reflexivity|now rewrite IH]. Qed.

Lemma substring_at (a : string) (c : ascii) (r : string) :
  substring (String.length a) 1 (a ++ String c r) = String c "".
Proof.
  induction a as [|x a IH]; cbn [String.length append substring].
  - now destruct r.
  - exact IH.
Qed.

(** A file name without dot or separator, put under a directory without
    dot and followed by an extension, splits into exactly these parts. *)
Lemma splitext_built (dir base ext : string) :
  contains "." dir = false ->
  contains "." base = false ->
  contains "/" base = false ->
  base <> "" ->
  ext = ""
  \/ (exists b, ext = String "." b
                /\ contains "." b = false /\ contains "/" b = false) ->
  splitext (dir ++ String "/" (base ++ ext))
  = (dir ++ String "/" base, ext).
Proof.
  intros Hdir Hbd Hbs Hne [->|(b & -> & Hb & Hbsl)].
  - rewrite append_empty. unfold splitext.
    assert (Hdot : contains "." (dir ++ String "/" base) = false).
    { rewrite contains_app, Hdir. cbn [contains]. now rewrite Hbd. }
    unfold rfind at 2. rewrite (rfind_from_absent _ _ _ _ Hdot).
    assert (H : (-1 <= rfind "/" (dir ++ String "/" base))%Z)
      by (apply rfind_from_lb; lia).
    destruct (_ <? _)%Z eqn:Hlt; [apply Z.ltb_lt in Hlt; lia|reflexivity].
  - unfold splitext.
    assert (Hsep : rfind "/" (dir ++ String "/" (base ++ String "." b))
                   = Z.of_nat (String.length dir)).
    { apply rfind_last. rewrite contains_app, Hbs. cbn [contains].
      now rewrite Hbsl. }
    assert (Hp : dir ++ String "/" (base ++ String "." b)
                 = (dir ++ String "/" base) ++ String "." b).
    { now rewrite append_assoc. }
    assert (Hdot : rfind "." (dir ++ String "/" (base ++ String "." b))
                   = Z.of_nat (String.length (dir ++ String "/" base))).
    { rewrite Hp. now apply rfind_last. }
    rewrite Hsep, Hdot.
    destruct base as [|c base']; [congruence|].
    rewrite length_append. cbn [String.length].
    replace (_ <? _)%Z with true by (symmetry; apply Z.ltb_lt; lia).
    replace (Z.to_nat (Z.of_nat (String.length dir + S (S (String.length base')))
                       - (Z.of_nat (String.length dir) + 1)))
      with (S (String.length base')) by lia.
    rewrite Nat2Z.id.
    replace (Z.to_nat (Z.of_nat (String.length dir) + 1))
      with (String.length (dir ++ "/")) by (rewrite length_append; simpl; lia).
    cbn [splitext_loop].
    replace (dir ++ String "/" (String c base' ++ String "." b))
      with ((dir ++ "/") ++ String c (base' ++ String "." b))
      by (now rewrite append_assoc).
    rewrite substring_at.
    cbn [contains] in Hbd. apply Bool.orb_false_elim in Hbd.
    destruct Hbd as [Hc _].
    assert (Hcd : (String c "" =? ".") = false).
    { apply String.eqb_neq. intros [= ->]. discriminate. }
    rewrite Hcd. cbn [negb].
    replace ((dir ++ "/") ++ String c (base' ++ String "." b))
      with ((dir ++ String "/" (String c base')) ++ String "." b).
    2:{ rewrite !append_assoc. reflexivity. }
    replace (String.length dir + S (S (String.length base')))
      with (String.length (dir ++ String "/" (String c base')))
      by (rewrite length_append; simpl; lia).
    rewrite substring_prefix.
    rewrite (length_append _ (String "." b)), Nat.add_comm, Nat.add_sub.
    now rewrite substring_suffix.
Qed.

(** *** [upload_audio] *)

Section Proofs.

Variable PSt : Type.
Variable process_request :
  pyval -> PSt -> (string -> option bytes) ->
  result pyval * PSt * (string -> option bytes).

Local Abbreviation upload := (upload_audio PSt).
Local Abbreviation endpoint := (process_voice_input PSt process_request).

(** The path under which [upload_audio] stores a file named [name]. *)
Lemma upload_path (stamp ext : string) :
  path_join UPLOAD_FOLDER ("audio_" ++ stamp ++ ext)
  = "uploads" ++ String "/" (("audio_" ++ stamp) ++ ext).
Proof. unfold path_join, UPLOAD_FOLDER. now rewrite append_assoc. Qed.

Lemma write_disk_other path data d p :
  p <> path -> write_disk path data d p = d p.
Proof.
  intros H. unfold write_disk.
  destruct (p =? path) eqn:E; [apply String.eqb_eq in E; congruence|reflexivity].
Qed.

Lemma write_disk_same path data d : write_disk path data d path = Some data.
Proof. unfold write_disk. now rewrite String.eqb_refl. Qed.

Lemma upload_cases stamp (f : UploadFile) (sv : Server PSt) :
  upload stamp (Some f) sv
  = match filename f with
    | None =>
        (Return {| status_code := 500;
                   content := [("error",
                                PStr "expected str, bytes or os.PathLike object, not NoneType")] |},
         sv)
    | Some name =>
        let path := path_join UPLOAD_FOLDER
                              ("audio_" ++ stamp ++ snd (splitext name)) in
        if can_create sv path then
          match read f with
          | Return data =>
              (Return {| status_code := 200;
                         content := [("message", PStr "File saved");
                                     ("path", PStr path)] |},
               {| disk := write_disk path data (write_disk path [] (disk sv));
                  can_create := can_create sv;
                  processor := processor sv;
                  tasks := tasks sv |})
          | Raise e =>
              (Return {| status_code := 500;
                         content := [("error", PStr (exn_msg e))] |},
               {| disk := write_disk path [] (disk sv);
                  can_create := can_create sv;
                  processor := processor sv;
                  tasks := tasks sv |})
          end
        else
          (Return {| status_code := 500; content := [("error", PStr path)] |},
           sv)
    end.
Proof.
  unfold upload_audio, try_except, bind, lift, ret, extension_of, open_wb,
    write.
  destruct (filename f) as [name|]; [|reflexivity].
  cbv zeta.
  destruct (can_create sv _); [|reflexivity].
  destruct (read f); reflexivity.
Qed.

(** X12.  [upload_audio] never raises: it answers with status 200, 400
    or 500; the status is 400 exactly when no file came with the
    request, and then nothing on the server has changed. *)
Theorem X12_upload_always_answers stamp file (sv : Server PSt) :
  exists r,
    fst (upload stamp file sv) = Return r
    /\ (status_code r = 200 \/ status_code r = 400 \/ status_code r = 500)%Z
    /\ (status_code r = 400%Z <-> file = None)
    /\ (status_code r = 400%Z -> snd (upload stamp file sv) = sv).
Proof.
  destruct file as [f|].
  - rewrite upload_cases.
    destruct (filename f) as [name|]; cbv zeta.
    + destruct (can_create sv _).
      * destruct (read f); eexists; cbn [fst snd status_code];
          (split; [reflexivity|]);
          (split; [auto|]); (split; [split; discriminate|discriminate]).
      * eexists; cbn [fst snd status_code]; split; [reflexivity|].
        split; [auto|]. split; [split; discriminate|discriminate].
    + eexists; cbn [fst snd status_code]; split; [reflexivity|].
      split; [auto|]. split; [split; discriminate|discriminate].
  - eexists. cbn. split; [reflexivity|]. split; [auto|]. now split.
Qed.

(** X13.  When the uploaded file has a name, can be read, and its
    target can be opened, [upload_audio] answers 200 with the path
    "uploads/audio_<stamp><extension of the name>"; afterwards that
    path holds exactly the uploaded bytes, every other file is as
    before, and no background task was added. *)
Theorem X13_upload_stores_file stamp (f : UploadFile) name data
        (sv : Server PSt) :
  filename f = Some name ->
  read f = Return data ->
  let path := "uploads/audio_" ++ stamp ++ snd (splitext name) in
  can_create sv path = true ->
  let sv' := snd (upload stamp (Some f) sv) in
  fst (upload stamp (Some f) sv)
  = Return {| status_code := 200;
              content := [("message", PStr "File saved");
                          ("path", PStr path)] |}
  /\ disk sv' path = Some data
  /\ (forall p, p <> path -> disk sv' p = disk sv p)
  /\ tasks sv' = tasks sv.
Proof.
  intros Hname Hread path Hcan sv'. subst sv'.
  rewrite upload_cases, Hname. cbv zeta.
  change (path_join UPLOAD_FOLDER ("audio_" ++ stamp ++ snd (splitext name)))
    with path.
  rewrite Hcan, Hread. cbn [fst snd disk tasks].
  split; [reflexivity|]. split; [apply write_disk_same|].
  split; [|reflexivity].
  intros p Hp. now rewrite !write_disk_other.
Qed.

Lemma stored_name_has_no_separator stamp name :
  plain_name stamp ->
  contains "/" (("audio_" ++ stamp) ++ snd (splitext name)) = false.
Proof.
  intros Hs. rewrite contains_app.
  assert (H1 : contains "/" ("audio_" ++ stamp) = false).
  { rewrite contains_app. rewrite (Hs "/"%char) by auto. reflexivity. }
  rewrite H1. cbn [orb].
  destruct (splitext_extension name) as [->|(b & -> & _ & Hb)];
    [reflexivity|].
  cbn [contains]. now rewrite Hb.
Qed.

(** X14.  Whatever the client sends as file and file name, every file
    that [upload_audio] changes lies directly in the folder "uploads":
    its path is "uploads/" followed by a name without separator.  (The
    stamp, made of digits and "_", has neither "/" nor ".".) *)
Theorem X14_upload_writes_only_inside_uploads stamp file (sv : Server PSt) p :
  plain_name stamp ->
  disk (snd (upload stamp file sv)) p <> disk sv p ->
  exists base, p = "uploads/" ++ base /\ contains "/" base = false.
Proof.
  intros Hs Hp. destruct file as [f|]; [|now cbn in Hp].
  rewrite upload_cases in Hp.
  destruct (filename f) as [name|]; [|now cbn in Hp].
  cbv zeta in Hp. rewrite upload_path in Hp.
  set (path := "uploads" ++ String "/" (("audio_" ++ stamp) ++ snd (splitext name)))
    in Hp.
  assert (Hpath : p = path).
  { destruct (String.eqb_spec p path) as [E|N]; [exact E|]. exfalso.
    destruct (can_create sv path); [|now cbn in Hp].
    destruct (read f); cbn [snd disk] in Hp;
      now rewrite !write_disk_other in Hp. }
  exists (("audio_" ++ stamp) ++ snd (splitext name)).
  split; [exact Hpath|]. now apply stored_name_has_no_separator.
Qed.

(** X15.  The path reported by a successful upload has the extension of
    the client's file name, and the stem "uploads/audio_<stamp>":
    [os.path.splitext] of the stored path gives back both. *)
Theorem X15_upload_keeps_extension stamp (f : UploadFile) name
        (sv : Server PSt) r :
  plain_name stamp ->
  filename f = Some name ->
  fst (upload stamp (Some f) sv) = Return r ->
  status_code r = 200%Z ->
  exists path,
    content r = [("message", PStr "File saved"); ("path", PStr path)]
    /\ splitext path = ("uploads/audio_" ++ stamp, snd (splitext name)).
Proof.
  intros Hs Hname Hr H200. rewrite upload_cases, Hname in Hr.
  cbv zeta in Hr. rewrite upload_path in Hr.
  destruct (can_create sv _).
  2:{ cbn in Hr. injection Hr as <-. discriminate. }
  destruct (read f).
  2:{ cbn in Hr. injection Hr as <-. discriminate. }
  cbn [fst] in Hr. injection Hr as <-. cbn [content].
  eexists. split; [reflexivity|].
  apply (splitext_built "uploads" ("audio_" ++ stamp) (snd (splitext name))).
  - reflexivity.
  - rewrite contains_app. now rewrite (Hs "."%char) by auto.
  - rewrite contains_app. now rewrite (Hs "/"%char) by auto.
  - discriminate.
  - apply splitext_extension.
Qed.

(** X16.  If reading the upload fails after its target was opened,
    [upload_audio] answers 500 with the text of the exception, and an
    empty file is left at the target path. *)
Theorem X16_upload_failed_read_leaves_empty_file stamp (f : UploadFile) name e
        (sv : Server PSt) :
  filename f = Some name ->
  read f = Raise e ->
  let path := "uploads/audio_" ++ stamp ++ snd (splitext name) in
  can_create sv path = true ->
  fst (upload stamp (Some f) sv)
  = Return {| status_code := 500; content := [("error", PStr (exn_msg e))] |}
  /\ disk (snd (upload stamp (Some f) sv)) path = Some [].
Proof.
  intros Hname Hread path Hcan.
  rewrite upload_cases, Hname. cbv zeta.
  change (path_join UPLOAD_FOLDER ("audio_" ++ stamp ++ snd (splitext name)))
    with path.
  rewrite Hcan, Hread. cbn [fst snd disk].
  split; [reflexivity|apply write_disk_same].
Qed.


(** **** [process_voice_input] *)

(** The handler of [process_voice_input] builds a [VoiceProcessResponse]
    without three of its required fields. *)
Lemma handler_fields msg rid secs :
  VoiceProcessResponse [("success", PBool false); ("error", PStr msg);
                        ("request_id", PStr rid); ("processing_time", secs)]
  = Raise (ValidationError "field required").
Proof. reflexivity. Qed.

Lemma shape_response_state amb bt res (sv : Server PSt) :
  snd (shape_response PSt amb bt res sv) = sv.
Proof.
  unfold shape_response, bind, lift, ret, raise.
  destruct (truth res); [|now destruct (slice50 _)].
  destruct (get res "success" _) as [s|]; [|reflexivity].
  destruct (negb (truth s)).
  - now destruct (get res "error" _).
  - destruct (get res "result" _) as [r1|]; [|reflexivity].
    destruct (get r1 "final_response" _) as [r2|]; [|reflexivity].
    destruct (get r2 "response_text" _) as [t|]; [|reflexivity].
    destruct (get res "text" _) as [x|]; [|reflexivity].
    now destruct (slice50 _).
Qed.

Lemma shape_response_value amb bt res (sv sv' : Server PSt) :
  fst (shape_response PSt amb bt res sv) = fst (shape_response PSt amb bt res sv').
Proof.
  unfold shape_response, bind, lift, ret, raise.
  destruct (truth res); [|now destruct (slice50 _)].
  destruct (get res "success" _) as [s|]; [|reflexivity].
  destruct (negb (truth s)).
  - now destruct (get res "error" _).
  - destruct (get res "result" _) as [r1|]; [|reflexivity].
    destruct (get r1 "final_response" _) as [r2|]; [|reflexivity].
    destruct (get r2 "response_text" _) as [t|]; [|reflexivity].
    destruct (get res "text" _) as [x|]; [|reflexivity].
    now destruct (slice50 _).
Qed.

Lemma shape_response_outcome amb bt res (sv : Server PSt) :
  match fst (shape_response PSt amb bt res sv) with
  | Return (Json r) => (status_code r = 200 \/ status_code r = 500)%Z
  | Return (Model _) => False
  | Raise _ => True
  end.
Proof.
  unfold shape_response, bind, lift, ret, raise.
  destruct (truth res); [|now destruct (slice50 _)].
  destruct (get res "success" _) as [s|]; [|exact I].
  destruct (negb (truth s)).
  - destruct (get res "error" _); cbn; auto.
  - destruct (get res "result" _) as [r1|]; [|exact I].
    destruct (get r1 "final_response" _) as [r2|]; [|exact I].
    destruct (get r2 "response_text" _) as [t|]; [|exact I].
    destruct (get res "text" _) as [x|]; [|exact I].
    destruct (slice50 _); cbn; auto.
Qed.


Lemma store_audio_cases amb audio (sv : Server PSt) :
  store_audio PSt amb audio sv
  = match audio with
    | None => (Return None, sv)
    | Some f =>
        match read f with
        | Raise e => (Raise e, sv)
        | Return data =>
            let path := temp_file_path (request_id amb) in
            if can_create sv path then
              (Return (Some path),
               {| disk := write_disk path data (write_disk path [] (disk sv));
                  can_create := can_create sv;
                  processor := processor sv;
                  tasks := tasks sv |})
            else (Raise (Exn OSError path), sv)
        end
    end.
Proof.
  unfold store_audio, bind, lift, ret, open_wb, write.
  destruct audio as [f|]; [|reflexivity].
  destruct (read f); [|reflexivity].
  cbv zeta. now destruct (can_create sv _).
Qed.

Lemma store_audio_tasks amb audio (sv : Server PSt) :
  tasks (snd (store_audio PSt amb audio sv)) = tasks sv.
Proof.
  rewrite store_audio_cases. destruct audio as [f|]; [|reflexivity].
  destruct (read f); [|reflexivity].
  cbv zeta. now destruct (can_create sv _).
Qed.

Lemma store_audio_some amb audio (sv : Server PSt) path :
  fst (store_audio PSt amb audio sv) = Return (Some path) ->
  audio <> None /\ path = temp_file_path (request_id amb).
Proof.
  rewrite store_audio_cases. destruct audio as [f|]; [|discriminate].
  destruct (read f); [|discriminate].
  cbv zeta. destruct (can_create sv _); [|discriminate].
  cbn. split; congruence.
Qed.

Lemma store_audio_storable amb audio (sv : Server PSt) :
  storable amb audio sv ->
  exists ad, fst (store_audio PSt amb audio sv) = Return ad.
Proof.
  rewrite store_audio_cases. destruct audio as [f|]; [|now exists None].
  intros [[data Hd] Hc]. rewrite Hd. cbv zeta. rewrite Hc. now eexists.
Qed.

Lemma call_processor_tasks req (sv : Server PSt) :
  tasks (snd (call_processor PSt process_request req sv)) = tasks sv.
Proof.
  unfold call_processor. now destruct (process_request _ _ _) as [[r ps] d].
Qed.

Lemma call_processor_answers req res (sv : Server PSt) :
  answers process_request res ->
  fst (call_processor PSt process_request req sv) = Return res.
Proof.
  intros H. unfold call_processor.
  specialize (H req (processor sv) (disk sv)).
  now destruct (process_request _ _ _) as [[r ps] d].
Qed.

Lemma schedule_cleanup_returns ad (sv : Server PSt) :
  fst (schedule_cleanup PSt ad sv) = Return tt.
Proof.
  unfold schedule_cleanup, bind, path_exists, add_remove_task, ret.
  destruct ad as [path|]; [|reflexivity].
  now destruct (disk sv path).
Qed.

Lemma schedule_cleanup_tasks ad (sv : Server PSt) :
  tasks (snd (schedule_cleanup PSt ad sv)) = tasks sv
  \/ exists path, ad = Some path
                  /\ tasks (snd (schedule_cleanup PSt ad sv))
                     = (tasks sv ++ [path])%list.
Proof.
  unfold schedule_cleanup, bind, path_exists, add_remove_task, ret.
  destruct ad as [path|]; [|now left].
  destruct (disk sv path); [right; now exists path|now left].
Qed.

Local Abbreviation body amb bt uid ts im bp audio :=
  (bind PSt (store_audio PSt amb audio)
        (fun audio_data =>
           bind PSt (call_processor PSt process_request
                       (request_dict amb bt uid ts im bp audio_data))
                (fun result_ =>
                   bind PSt (schedule_cleanup PSt audio_data)
                        (fun _ => shape_response PSt amb bt result_)))).

(** The tasks after the guarded block of the endpoint. *)
Lemma body_tasks amb bt uid ts im bp audio (sv : Server PSt) :
  tasks (snd (body amb bt uid ts im bp audio sv)) = tasks sv
  \/ (audio <> None
      /\ tasks (snd (body amb bt uid ts im bp audio sv))
         = (tasks sv ++ [temp_file_path (request_id amb)])%list).
Proof.
  unfold bind. cbv beta.
  pose proof (store_audio_tasks amb audio sv) as Ht1.
  pose proof (store_audio_some amb audio sv) as Hs.
  destruct (store_audio PSt amb audio sv) as [[ad|e] sv1]; cbn [fst snd] in *.
  2:{ now left. }
  pose proof (call_processor_tasks (request_dict amb bt uid ts im bp ad) sv1)
    as Ht2.
  destruct (call_processor PSt process_request _ sv1) as [[res|e] sv2];
    cbn [fst snd] in *.
  2:{ left; congruence. }
  pose proof (schedule_cleanup_returns ad sv2) as Hr.
  pose proof (schedule_cleanup_tasks ad sv2) as Ht3.
  destruct (schedule_cleanup PSt ad sv2) as [[[]|e] sv3]; cbn [fst snd] in *;
    [|discriminate].
  rewrite shape_response_state.
  destruct Ht3 as [Ht3|(path & -> & Ht3)].
  - left. congruence.
  - right. destruct (Hs path eq_refl) as [Ha <-].
    split; [exact Ha|]. now rewrite Ht3, Ht2, Ht1.
Qed.

(** The guarded block raises, or returns what [shape_response] makes of
    some result of the processor. *)
Lemma body_value amb bt uid ts im bp audio (sv : Server PSt) :
  (exists e, fst (body amb bt uid ts im bp audio sv) = Raise e)
  \/ exists req ps d res,
      fst (fst (process_request req ps d)) = Return res
      /\ fst (body amb bt uid ts im bp audio sv)
         = fst (shape_response PSt amb bt res sv).
Proof.
  unfold bind. cbv beta.
  destruct (store_audio PSt amb audio sv) as [[ad|e] sv1]; cbn [fst snd] in *.
  2:{ left; now exists e. }
  assert (Hc : fst (call_processor PSt process_request
                      (request_dict amb bt uid ts im bp ad) sv1)
               = fst (fst (process_request
                             (request_dict amb bt uid ts im bp ad)
                             (processor sv1) (disk sv1)))).
  { unfold call_processor.
    now destruct (process_request _ _ _) as [[r ps] d]. }
  destruct (call_processor PSt process_request _ sv1) as [[res|e] sv2];
    cbn [fst snd] in *.
  2:{ left; now exists e. }
  pose proof (schedule_cleanup_returns ad sv2) as Hr.
  destruct (schedule_cleanup PSt ad sv2) as [[[]|e] sv3]; cbn [fst snd] in *;
    [|discriminate].
  right. exists (request_dict amb bt uid ts im bp ad), (processor sv1),
    (disk sv1), res.
  split; [now rewrite <- Hc|apply shape_response_value].
Qed.

(** With audio that can be stored, the guarded block returns what
    [shape_response] makes of the result of the processor. *)
Lemma body_storable amb bt uid ts im bp audio (sv : Server PSt) res :
  storable amb audio sv ->
  answers process_request res ->
  fst (body amb bt uid ts im bp audio sv)
  = fst (shape_response PSt amb bt res sv).
Proof.
  intros Hst Hans. unfold bind. cbv beta.
  destruct (store_audio_storable amb audio sv Hst) as [ad Had].
  destruct (store_audio PSt amb audio sv) as [[ad'|e] sv1]; cbn [fst snd] in *;
    [|discriminate].
  pose proof (call_processor_answers (request_dict amb bt uid ts im bp ad')
                res sv1 Hans) as Hc.
  destruct (call_processor PSt process_request _ sv1) as [[res'|e] sv2];
    cbn [fst snd] in *; [|discriminate].
  injection Hc as ->.
  pose proof (schedule_cleanup_returns ad' sv2) as Hr.
  destruct (schedule_cleanup PSt ad' sv2) as [[[]|e] sv3]; cbn [fst snd] in *;
    [|discriminate].
  apply shape_response_value.
Qed.

Lemma endpoint_eq amb bt uid ts im bp audio (sv : Server PSt) :
  endpoint amb bt uid ts im bp audio sv
  = (match fst (body amb bt uid ts im bp audio sv) with
     | Return a => Return a
     | Raise e => Raise (ValidationError "field required")
     end,
     snd (body amb bt uid ts im bp audio sv)).
Proof.
  unfold process_voice_input, try_except.
  destruct (body amb bt uid ts im bp audio sv) as [[a|e] sv']; reflexivity.
Qed.

(** X17.  [process_voice_input] has three outcomes only: a JSON
    response with status 200, a JSON response with status 500, or a
    raised [ValidationError].  It never returns a [VoiceProcessResponse]:
    the handler of the guarded block builds one without its required
    fields, so every exception inside the block leaves the endpoint as
    a validation error. *)
Theorem X17_endpoint_outcomes amb bt uid ts im bp audio (sv : Server PSt) :
  match fst (endpoint amb bt uid ts im bp audio sv) with
  | Return (Json r) => (status_code r = 200 \/ status_code r = 500)%Z
  | Return (Model _) => False
  | Raise e => exn_cls e = OtherError "ValidationError"
  end.
Proof.
  rewrite endpoint_eq. cbn [fst].
  destruct (body_value amb bt uid ts im bp audio sv)
    as [[e ->]|(req & ps & d & res & _ & ->)]; [reflexivity|].
  pose proof (shape_response_outcome amb bt res sv) as H.
  destruct (fst (shape_response PSt amb bt res sv)) as [[r|m]|e];
    [exact H|exact H|reflexivity].
Qed.

Lemma shape_response_unfilled amb bt res (sv : Server PSt) :
  not_a_filled_dict res ->
  exists e, fst (shape_response PSt amb bt res sv) = Raise e.
Proof.
  intros H. unfold shape_response, bind, lift, ret, raise.
  destruct res as [|b|n|s|l|[|kv d]]; try contradiction; cbn [truth].
  - now eexists.
  - destruct b; now eexists.
  - destruct (negb (n =? 0)%Z); now eexists.
  - destruct (negb (s =? "")); now eexists.
  - destruct (negb (Nat.eqb (length l) 0)); now eexists.
  - now eexists.
Qed.

(** X18.  When the processor returns anything but a dictionary with at
    least one member (None, an empty dictionary, a string, ...), the
    endpoint raises [ValidationError]: the branch that falls back to
    the browser transcript for an empty result never produces a
    response. *)
Theorem X18_only_a_filled_dict_is_answered amb bt uid ts im bp audio
        (sv : Server PSt) res :
  answers process_request res ->
  not_a_filled_dict res ->
  exists e,
    fst (endpoint amb bt uid ts im bp audio sv) = Raise e
    /\ exn_cls e = OtherError "ValidationError".
Proof.
  intros Hans Hres. rewrite endpoint_eq. cbn [fst].
  destruct (body_value amb bt uid ts im bp audio sv)
    as [[e ->]|(req & ps & d & res' & Hr & ->)]; [now eexists|].
  rewrite (Hans req ps d) in Hr. injection Hr as <-.
  destruct (shape_response_unfilled amb bt res sv Hres) as [e ->].
  now eexists.
Qed.

(** X19.  When the processor returns a dictionary whose "success"
    member is falsy, the endpoint answers 500 with "success" false,
    the "error" member of the result (or "Unknown error" when there is
    none) and the request id. *)
Theorem X19_reported_failure_is_passed_on amb bt uid ts im bp audio
        (sv : Server PSt) d s :
  answers process_request (PDict d) ->
  storable amb audio sv ->
  lookup "success" d = Some s ->
  truth s = false ->
  fst (endpoint amb bt uid ts im bp audio sv)
  = Return (Json {| status_code := 500;
                    content :=
                      [("success", PBool false);
                       ("error", match lookup "error" d with
                                 | Some x => x
                                 | None => PStr "Unknown error"
                                 end);
                       ("request_id", PStr (request_id amb))] |}).
Proof.
  intros Hans Hst Hs Hf. rewrite endpoint_eq. cbn [fst].
  rewrite (body_storable amb bt uid ts im bp audio sv (PDict d) Hst Hans).
  unfold shape_response, bind, lift, ret.
  assert (Ht : truth (PDict d) = true).
  { destruct d; [discriminate|reflexivity]. }
  rewrite Ht. cbn [get]. rewrite Hs, Hf. cbn [negb].
  now destruct (lookup "error" d).
Qed.

(** X20.  When the processor returns a dictionary that does not report
    failure, with a response text under "result" / "final_response" /
    "response_text" and a string under "text", the endpoint answers 200
    with that response text; the transcribed text is the "text" of the
    result, or the browser transcript when that text is empty. *)
Theorem X20_answer_and_transcript_fallback amb bt uid ts im bp audio
        (sv : Server PSt) d r1 r2 t text :
  answers process_request (PDict d) ->
  storable amb audio sv ->
  (forall s, lookup "success" d = Some s -> truth s = true) ->
  lookup "result" d = Some (PDict r1) ->
  lookup "final_response" r1 = Some (PDict r2) ->
  lookup "response_text" r2 = Some t ->
  lookup "text" d = Some (PStr text) ->
  fst (endpoint amb bt uid ts im bp audio sv)
  = Return (Json {| status_code := 200;
                    content :=
                      [("success", PBool true);
                       ("result", t);
                       ("transcribed_text",
                        PStr (if text =? "" then bt else text));
                       ("processing_time_ms", PInt (elapsed_ms amb));
                       ("request_id", PStr (request_id amb))] |}).
Proof.
  intros Hans Hst Hs H1 H2 H3 H4. rewrite endpoint_eq. cbn [fst].
  rewrite (body_storable amb bt uid ts im bp audio sv (PDict d) Hst Hans).
  unfold shape_response, bind, lift, ret.
  assert (Ht : truth (PDict d) = true).
  { destruct d; [discriminate|reflexivity]. }
  rewrite Ht. cbn [get].
  assert (Hsucc : truth match lookup "success" d with
                        | Some x => x
                        | None => PBool true
                        end = true).
  { destruct (lookup "success" d) as [s|]; [now apply Hs|reflexivity]. }
  destruct (lookup "success" d) as [s|]; rewrite Hsucc; cbn [negb];
    rewrite H1; cbn [get]; rewrite H2; cbn [get]; rewrite H3, H4;
    cbn [truth]; destruct (text =? ""); reflexivity.
Qed.

(** X21.  The endpoint adds at most one background task, the removal
    of its own temporary file, and none when no audio was sent. *)
Theorem X21_only_the_temporary_file_is_scheduled amb bt uid ts im bp audio
        (sv : Server PSt) :
  let sv' := snd (endpoint amb bt uid ts im bp audio sv) in
  tasks sv' = tasks sv
  \/ (audio <> None
      /\ tasks sv' = (tasks sv ++ [temp_file_path (request_id amb)])%list).
Proof.
  intros sv'. subst sv'. rewrite endpoint_eq. cbn [snd].
  apply body_tasks.
Qed.

(** X22.  For a request id without "/" and "." (as the text of a UUID
    is), the temporary audio file lies in "uploads" and has the
    extension ".webm", whatever was uploaded. *)
Theorem X22_temporary_file_is_webm (id : string) :
  plain_name id ->
  splitext (temp_file_path id) = ("uploads/temp_audio_" ++ id, ".webm").
Proof.
  intros Hid. unfold temp_file_path.
  apply (splitext_built "uploads" ("temp_audio_" ++ id) ".webm").
  - reflexivity.
  - rewrite contains_app. now rewrite (Hid "."%char) by auto.
  - rewrite contains_app. now rewrite (Hid "/"%char) by auto.
  - discriminate.
  - right. now exists "webm".
Qed.


End Proofs.

(** *** Examples *)

Lemma X13_witness :
  fst (upload_audio unit "20250101_120000" (Some recording) server0)
  = Return {| status_code := 200;
              content := [("message", PStr "File saved");
                          ("path",
                           PStr "uploads/audio_20250101_120000.WebM")] |}
  /\ disk (snd (upload_audio unit "20250101_120000" (Some recording) server0))
          "uploads/audio_20250101_120000.WebM"
     = Some VoiceAgent.audio0.
Proof.
  destruct (X13_upload_stores_file unit "20250101_120000" recording
              "note.WebM" VoiceAgent.audio0 server0 eq_refl eq_refl eq_refl)
    as (H1 & H2 & _).
  split; [exact H1|exact H2].
Defined.

Lemma X14_witness :
  exists base,
    "uploads/audio_20250101_120000.WebM" = "uploads/" ++ base
    /\ contains "/" base = false.
Proof.
  apply (X14_upload_writes_only_inside_uploads
           unit "20250101_120000" (Some recording) server0
           "uploads/audio_20250101_120000.WebM").
  - intros c [->| ->]; reflexivity.
  - vm_compute. discriminate.
Defined.

Lemma X15_witness :
  exists path,
    [("message", PStr "File saved");
     ("path", PStr "uploads/audio_20250101_120000.WebM")]
    = [("message", PStr "File saved"); ("path", PStr path)]
    /\ splitext path = ("uploads/audio_20250101_120000", ".WebM").
Proof.
  apply (X15_upload_keeps_extension
           unit "20250101_120000" recording "note.WebM" server0
           {| status_code := 200;
              content := [("message", PStr "File saved");
                          ("path",
                           PStr "uploads/audio_20250101_120000.WebM")] |}).
  - intros c [->| ->]; reflexivity.
  - reflexivity.
  - reflexivity.
  - reflexivity.
Defined.

Lemma X16_witness :
  fst (upload_audio unit "20250101_120000" (Some broken_upload) server0)
  = Return {| status_code := 500;
              content := [("error", PStr "client went away")] |}
  /\ disk (snd (upload_audio unit "20250101_120000" (Some broken_upload)
                             server0))
          "uploads/audio_20250101_120000.WebM"
     = Some [].
Proof.
  apply (X16_upload_failed_read_leaves_empty_file
           unit "20250101_120000" broken_upload "note.WebM"
           (Exn (OtherError "ClientDisconnect") "client went away") server0);
    reflexivity.
Defined.

Lemma X18_witness :
  exists e,
    fst (process_voice_input unit (constant_processor (Return PNone))
           ambient0 "remind me at nine" "anonymous" None "voice" "false"
           (Some recording) server0)
    = Raise e
    /\ exn_cls e = OtherError "ValidationError".
Proof.
  apply (X18_only_a_filled_dict_is_answered
           unit (constant_processor (Return PNone))
           ambient0 "remind me at nine" "anonymous" None "voice" "false"
           (Some recording) server0 PNone).
  - intros req ps d. reflexivity.
  - exact I.
Defined.

Lemma X19_witness :
  fst (process_voice_input unit (constant_processor (Return failed_result))
         ambient0 "remind me at nine" "anonymous" None "voice" "false"
         (Some recording) server0)
  = Return (Json {| status_code := 500;
                    content :=
                      [("success", PBool false);
                       ("error", PStr "no agent available");
                       ("request_id",
                        PStr "0f8fad5b-d9cb-469f-a165-70867728950e")] |}).
Proof.
  apply (X19_reported_failure_is_passed_on
           unit (constant_processor (Return failed_result))
           ambient0 "remind me at nine" "anonymous" None "voice" "false"
           (Some recording) server0
           [("success", PBool false); ("error", PStr "no agent available")]
           (PBool false)).
  - intros req ps d. reflexivity.
  - split; [now exists VoiceAgent.audio0|reflexivity].
  - reflexivity.
  - reflexivity.
Defined.

Lemma X20_witness :
  fst (process_voice_input unit (constant_processor (Return silent_result))
         ambient0 "remind me at nine" "anonymous" None "voice" "false"
         None server0)
  = Return (Json {| status_code := 200;
                    content :=
                      [("success", PBool true);
                       ("result", PStr "Noted.");
                       ("transcribed_text", PStr "remind me at nine");
                       ("processing_time_ms", PInt 12);
                       ("request_id",
                        PStr "0f8fad5b-d9cb-469f-a165-70867728950e")] |}).
Proof.
  apply (X20_answer_and_transcript_fallback
           unit (constant_processor (Return silent_result))
           ambient0 "remind me at nine" "anonymous" None "voice" "false"
           None server0
           [("success", PBool true);
            ("text", PStr "");
            ("result",
             PDict [("final_response",
                     PDict [("response_text", PStr "Noted.")])])]
           [("final_response", PDict [("response_text", PStr "Noted.")])]
           [("response_text", PStr "Noted.")]
           (PStr "Noted.") "").
  - intros req ps d. reflexivity.
  - exact I.
  - intros s [= <-]. reflexivity.
  - reflexivity.
  - reflexivity.
  - reflexivity.
  - reflexivity.
Defined.

Lemma X22_witness :
  splitext (temp_file_path (request_id ambient0))
  = ("uploads/temp_audio_0f8fad5b-d9cb-469f-a165-70867728950e", ".webm").
Proof.
  apply (X22_temporary_file_is_webm (request_id ambient0)).
  intros c [->| ->]; reflexivity.
Defined.

End VoiceRoutesSpec.
